(** * Whisper-Lab: the audio layer ([whisperlab/audio.py])

    A shallow embedding of the validation, conversion, buffering, replay and
    export code of [whisperlab/audio.py], and the properties its
    specification states about them.

    Conventions of the embedding:
    - a one-dimensional numpy array is the list of its elements; the
      operations of numpy the code relies on (negative slice bounds,
      [np.roll], slice assignment with its shape check) are written out;
    - a Python exception is a value of [exn], and a call that may raise
      returns a [result];
    - a floating-point sample is the rational number it denotes: every finite
      float32 is a rational, and on [-1, 1] the product with [32_768 = 2^15]
      is exact, so the arithmetic below is the arithmetic of the code.  The
      non-finite values are not samples of the model. *)

From Stdlib Require Import ZArith QArith Qabs Qround Lia Ascii.
From stdpp Require Import gmap strings list fin_maps.

Local Open Scope Z_scope.

(** ** Exceptions and results *)

Inductive exn : Type :=
  | EmptyFile                      (* audio.py, class EmptyFile *)
  | AudioOverflow                  (* audio.py, class AudioOverflow *)
  | EmptyArray                     (* audio.py, class EmptyArray *)
  | ArrayTypeError                 (* audio.py, class ArrayTypeError *)
  | ValueError
  | TypeError
  | IndexError
  | ZeroDivisionError
  | FileExistsError
  | FileNotFoundError
  | NotADirectoryError
  | IsADirectoryError
  | NameError (name : string)
  | AttributeError (attr : string)
  | Exception (msg : string).

Inductive result (T : Type) : Type :=
  | Ok (v : T)
  | Raise (e : exn).

Arguments Ok {T} v.
Arguments Raise {T} e.

#[global] Instance result_ret : MRet result := λ _ v, Ok v.

#[global] Instance result_bind : MBind result := λ _ _ k r,
  match r with
  | Ok v => k v
  | Raise e => Raise e
  end.

Definition is_ok {T : Type} (r : result T) : bool :=
  match r with Ok _ => true | Raise _ => false end.

(** ** Constants (audio.py, line 18) *)

Definition SAMPLES_PER_SECOND : Z := 16000.

(** ** numpy on one-dimensional arrays

    The arrays of this section hold elements of one type [A]: a slice
    assignment stores the values of its source as they are, which is what
    numpy does when source and target have the same element type. *)

Section Arrays.
Context {A : Type}.

(** [len(a)], a Python integer. *)
Definition len (a : list A) : Z := Z.of_nat (length a).

(** The position a slice bound denotes in a sequence of length [n]: a
    negative bound counts from the end, and both are clipped to [0..n]. *)
Definition slice_bound (n bound : Z) : nat :=
  Z.to_nat (if bound <? 0 then Z.max (n + bound) 0 else Z.min bound n).

(** [a[start:]] *)
Definition getslice_from (a : list A) (start : Z) : list A :=
  drop (slice_bound (len a) start) a.

(** [a[:stop]] *)
Definition getslice_to (a : list A) (stop : Z) : list A :=
  take (slice_bound (len a) stop) a.

(** [np.roll(a, shift)]: a new array whose element [i] is element
    [(i - shift) mod len(a)] of [a]. *)
Definition np_roll (a : list A) (shift : Z) : list A :=
  match a with
  | [] => []
  | _ => let k := Z.to_nat ((- shift) mod len a) in drop k a ++ take k a
  end.

(** [a[start:] = src]: the source must have the shape of the slice, or be
    of length one (it is then broadcast); anything else is numpy's
    "could not broadcast input array" [ValueError]. *)
Definition setslice_from (a : list A) (start : Z) (src : list A)
  : result (list A) :=
  let k := slice_bound (len a) start in
  let m := (length a - k)%nat in
  if decide (length src = m) then Ok (take k a ++ src)
  else match src with
       | [x] => Ok (take k a ++ replicate m x)
       | _ => Raise ValueError
       end.

(** ** [roll] (audio.py, lines 127-156) *)
Definition roll (buffer samples : list A) : result (list A) :=
  if len buffer <? len samples then
    Ok (getslice_from samples (- len buffer))
  else
    let left_shift := - len samples in
    let buffer := np_roll buffer left_shift in
    setslice_from buffer left_shift samples.

(** The last [n] elements of [s], in the words of the specification. *)
Definition last_n (n : nat) (s : list A) : list A :=
  drop (length s - n)%nat s.

End Arrays.

(** ** [roll] on arrays that live in memory

    Whether [roll] writes to the array it is given is a question about numpy
    objects, not about their values.  An array object is a view of a block of
    memory: slicing gives a second view of the same block, [np.roll]
    allocates a block, and a slice assignment writes through the view.  The
    values computed are those of the functions above. *)

Module Mem.
Section Mem.
Context {A : Type}.

Definition loc : Type := positive.

Record ndarray : Type := NdArray { base : loc; offset : nat; size : nat }.

Definition contents (h : gmap loc (list A)) (a : ndarray) : list A :=
  take (size a) (drop (offset a) (default [] (h !! base a))).

(** The view lies within a block of the memory. *)
Definition valid (h : gmap loc (list A)) (a : ndarray) : Prop :=
  ∃ blk, h !! base a = Some blk ∧ (offset a + size a ≤ length blk)%nat.

Definition alloc (vals : list A) (h : gmap loc (list A))
  : ndarray * gmap loc (list A) :=
  let l := fresh (dom h) in
  (NdArray l 0 (length vals), <[l := vals]> h).

Definition store (a : ndarray) (vals : list A) (h : gmap loc (list A))
  : gmap loc (list A) :=
  alter (λ blk, take (offset a) blk ++ vals
                ++ drop (offset a + size a) blk) (base a) h.

(** [np.roll(a, shift)] returns a new array. *)
Definition np_roll (a : ndarray) (shift : Z) (h : gmap loc (list A))
  : ndarray * gmap loc (list A) :=
  alloc (np_roll (contents h a) shift) h.

(** [a[start:]] is a view of [a]. *)
Definition getslice_from (a : ndarray) (start : Z) : ndarray :=
  let k := slice_bound (Z.of_nat (size a)) start in
  NdArray (base a) (offset a + k) (size a - k).

(** [a[start:] = src] writes to the memory of [a]. *)
Definition setslice_from (a : ndarray) (start : Z) (src : ndarray)
    (h : gmap loc (list A)) : result unit * gmap loc (list A) :=
  match setslice_from (contents h a) start (contents h src) with
  | Ok vals => (Ok (), store a vals h)
  | Raise e => (Raise e, h)
  end.

(** [roll] (audio.py, lines 151-156); the assignment to the local name
    [buffer] rebinds it to the array [np.roll] returned. *)
Definition roll (buffer samples : ndarray) (h : gmap loc (list A))
  : result ndarray * gmap loc (list A) :=
  if Z.of_nat (size buffer) <? Z.of_nat (size samples) then
    (Ok (getslice_from samples (- Z.of_nat (size buffer))), h)
  else
    let left_shift := - Z.of_nat (size samples) in
    let '(buffer, h) := np_roll buffer left_shift h in
    match setslice_from buffer left_shift samples h with
    | (Ok _, h) => (Ok buffer, h)
    | (Raise e, h) => (Raise e, h)
    end.

End Mem.
End Mem.

(** ** [WaveBuffer] (audio.py, lines 162-189) *)

Module WaveBuffer.

(** The instance: its single attribute [buffer]. *)
Record t : Type := Make { buffer : list Q }.

(** [np.zeros(buffer_size)]; a negative size is numpy's [ValueError]. *)
Definition np_zeros (n : Z) : result (list Q) :=
  if n <? 0 then Raise ValueError else Ok (replicate (Z.to_nat n) 0%Q).

Definition __init__ (buffer_size : Z) : result t :=
  zeros ← np_zeros buffer_size;
  Ok (Make zeros).

Definition get (self : t) : list Q := buffer self.

(** The hook of the base class; a child class overrides it. *)
Definition process (audio_samples : list Q) : list Q := audio_samples.

(** [put], for the [process] of the instance's class. *)
Definition put (process : list Q → list Q) (self : t)
    (audio_samples : list Q) : t :=
  Make (process audio_samples).

(** The calls a client makes on a base-class instance. *)
Inductive op : Type :=
  | Put (audio_samples : list Q)
  | Get.

Definition step (self : t) (o : op) : t :=
  match o with
  | Put audio_samples => put process self audio_samples
  | Get => self
  end.

Definition run (self : t) (ops : list op) : t := foldl step self ops.

(** The array of the last [put] of a sequence of calls, if any. *)
Fixpoint last_put (ops : list op) : option (list Q) :=
  match ops with
  | [] => None
  | o :: ops =>
      match last_put ops, o with
      | Some s, _ => Some s
      | None, Put s => Some s
      | None, Get => None
      end
  end.

End WaveBuffer.

(** ** Validation and conversion (audio.py, lines 73-121) *)

(** The element types of sample arrays. *)
Inductive dtype : Type := float16 | float32 | float64.

#[global] Instance dtype_eq_dec : EqDecision dtype.
Proof. solve_decision. Defined.

(** A sample array: its [dtype] and the values it holds. *)
Record ndarray : Type := NdArray { dtype_of : dtype; data : list Q }.

(** [x > y] on floating-point values *)
Definition Qgtb (x y : Q) : bool := negb (Qle_bool x y).

(** [np.any(np.abs(a) > 1)] *)
Definition np_any_abs_gt_1 (a : list Q) : bool :=
  existsb (λ b : bool, b) (map (λ x, Qgtb x 1) (map Qabs a)).

Definition ValidateAudioArray (audio : ndarray) (dtype : dtype)
  : result unit :=
  if len (data audio) =? 0 then Raise EmptyArray
  else if negb (bool_decide (dtype_of audio = dtype)) then Raise ArrayTypeError
  else if np_any_abs_gt_1 (data audio) then Raise AudioOverflow
  else Ok ().

(** [audio * 32_768], element by element. *)
Definition np_mul (a : list Q) (c : Z) : list Q :=
  map (λ x, (x * inject_Z c)%Q) a.

(** The conversion of a floating-point value to a C integer discards the
    fractional part. *)
Definition Qtrunc (x : Q) : Z := Z.quot (Qnum x) (Zpos (Qden x)).

(** A 16-bit pattern read as a signed integer. *)
Definition int16_of_bits (u : Z) : Z :=
  if Z.testbit u 15 then u - 65536 else u.

(** The cast to [np.int16] of one value: the truncated value, of which the
    low sixteen bits are kept. *)
Definition cast_int16 (x : Q) : Z :=
  int16_of_bits (Z.land (Qtrunc x) 65535).

(** [a.astype(np.int16)] *)
Definition astype_int16 (a : list Q) : list Z := map cast_int16 a.

Definition float32_to_int16 (audio : ndarray) : result (list Z) :=
  _ ← ValidateAudioArray audio float32;
  let new_audio := astype_int16 (np_mul (data audio) 32768) in
  Ok new_audio.

(** The conversion in the words of the specification: rounding towards
    zero, then the reduction to the 16-bit signed range. *)
Definition round_towards_zero (x : Q) : Z :=
  if Qle_bool 0 x then Qfloor x else Qceiling x.

Definition to_int16 (z : Z) : Z := (z + 32768) mod 65536 - 32768.

Definition spec_sample (s : Q) : Z :=
  to_int16 (round_towards_zero (s * 32768)).

(** ** Loading a file (audio.py, lines 57-70 and 241-258) *)

(** An audio file, as the loader sees it: its size in bytes, and the sample
    array the decoder [whisper.audio.load_audio], which is not part of this
    program, returns for it. *)
Record AudioFile : Type :=
  { file_name : string; st_size : Z; decoded : list Q }.

Definition ValidateAudioFile (audio_file : AudioFile) : result unit :=
  if st_size audio_file =? 0 then Raise EmptyFile else Ok ().

Definition load_audio_file (audio_file : AudioFile) : result (list Q) :=
  _ ← ValidateAudioFile audio_file;
  let audio := decoded audio_file in
  Ok audio.

(** ** [VirtualMicrophone] (audio.py, lines 221-235) *)

Module VirtualMicrophone.

(** The values the attributes of an instance and the names of the module
    hold. *)
Inductive value : Type :=
  | VNone
  | VInt (n : Z)
  | VFile (f : AudioFile)
  | VArray2 (rows : list (list Q)).

(** The names bound at the top level of [audio.py] that the class reads.
    [SAMPLES_PER_WINDOW] is not among them: the module never binds it. *)
Definition module_globals : gmap string value :=
  {[ "SAMPLES_PER_SECOND" := VInt SAMPLES_PER_SECOND ]}.

(** Reading a global name. *)
Definition load_global (globals : gmap string value) (name : string)
  : result value :=
  match globals !! name with
  | Some v => Ok v
  | None => Raise (NameError name)
  end.

(** Reading an attribute of an instance; the class defines no attribute
    besides its two methods. *)
Definition getattr (self : gmap string value) (name : string)
  : result value :=
  match self !! name with
  | Some v => Ok v
  | None => Raise (AttributeError name)
  end.

(** [a // b] *)
Definition floordiv (a : Z) (b : value) : result Z :=
  match b with
  | VInt b => if b =? 0 then Raise ZeroDivisionError else Ok (a / b)
  | _ => Raise TypeError
  end.

(** [a * b] *)
Definition mul (a : Z) (b : value) : result Z :=
  match b with
  | VInt b => Ok (a * b)
  | _ => Raise TypeError
  end.

(** [a >= b] *)
Definition ge (a b : value) : result bool :=
  match a, b with
  | VInt a, VInt b => Ok (b <=? a)
  | _, _ => Raise TypeError
  end.

(** [a + 1] *)
Definition add1 (a : value) : result value :=
  match a with
  | VInt a => Ok (VInt (a + 1))
  | _ => Raise TypeError
  end.

(** The rows of a two-dimensional array read in row order from [a]. *)
Fixpoint split_rows (rows cols : nat) (a : list Q) : list (list Q) :=
  match rows with
  | O => []
  | S rows => take cols a :: split_rows rows cols (drop cols a)
  end.

(** [a.reshape(rows, cols)]: one dimension may be -1, numpy then infers
    it; the shape must hold exactly the elements of [a]. *)
Definition reshape (a : list Q) (rows : Z) (cols : value)
  : result (list (list Q)) :=
  match cols with
  | VInt cols =>
      let shaped (rows cols : Z) :=
        if (0 <=? rows) && (0 <=? cols) && (rows * cols =? len a)
        then Ok (split_rows (Z.to_nat rows) (Z.to_nat cols) a)
        else Raise ValueError in
      if (rows =? -1) && (cols =? -1) then Raise ValueError
      else if rows =? -1 then
        if (0 <? cols) && (len a mod cols =? 0)
        then shaped (len a / cols) cols else Raise ValueError
      else if cols =? -1 then
        if (0 <? rows) && (len a mod rows =? 0)
        then shaped rows (len a / rows) else Raise ValueError
      else shaped rows cols
  | _ => Raise TypeError
  end.

(** [a[i]] on a two-dimensional array *)
Definition getitem (a i : value) : result (list Q) :=
  match a, i with
  | VArray2 rows, VInt i =>
      let n := Z.of_nat (length rows) in
      let j := if i <? 0 then i + n else i in
      if (0 <=? j) && (j <? n)
      then match rows !! Z.to_nat j with
           | Some row => Ok row
           | None => Raise IndexError
           end
      else Raise IndexError
  | _, _ => Raise TypeError
  end.

(** [__init__]; [globals] holds the top-level names of the module when
    the instance is built.  [segments] is a local name of the method. *)
Definition __init__ (globals : gmap string value) (audio_file : AudioFile)
  : result (gmap string value) :=
  let self : gmap string value := ∅ in
  let self := <["audio_file" := VFile audio_file]> self in
  samples ← load_audio_file audio_file;
  W ← load_global globals "SAMPLES_PER_WINDOW";
  segments ← floordiv (len samples) W;
  W ← load_global globals "SAMPLES_PER_WINDOW";
  stop ← mul segments W;
  W ← load_global globals "SAMPLES_PER_WINDOW";
  windows ← reshape (getslice_to samples stop) segments W;
  let self := <["samples" := VArray2 windows]> self in
  let self := <["index" := VInt 0]> self in
  Ok self.

(** The body of [get]: what it binds, and the instance it leaves.  The
    local name [samples] is bound and not used. *)
Definition get_body (self : gmap string value)
  : result (gmap string value) :=
  index ← getattr self "index";
  segments ← getattr self "segments";
  exhausted ← ge index segments;
  if exhausted : bool then Raise (Exception "Unexpected end of samples")
  else
    samples_attr ← getattr self "samples";
    index ← getattr self "index";
    samples ← getitem samples_attr index;
    index ← getattr self "index";
    index ← add1 index;
    Ok (<["index" := index]> self).

(** [get]: the value returned or the exception raised, and the instance
    after the call.  The only assignment is the last statement, so a call
    that raises leaves the instance as it was; the body has no [return],
    so a call that completes returns [None]. *)
Definition get (self : gmap string value)
  : result value * gmap string value :=
  match get_body self with
  | Ok self' => (Ok VNone, self')
  | Raise e => (Raise e, self)
  end.

(** [n] calls of [get] in a row: their outcomes and the final instance. *)
Fixpoint gets (n : nat) (self : gmap string value)
  : list (result value) * gmap string value :=
  match n with
  | O => ([], self)
  | S n =>
      let '(r, self) := get self in
      let '(rs, self) := gets n self in
      (r :: rs, self)
  end.

End VirtualMicrophone.

(** The instance [__init__] builds when the module binds
    [SAMPLES_PER_WINDOW] to [W]: the whole windows of the decoded array, a
    cursor at 0, and no attribute [segments] (lemma [init_built]). *)
Definition built (f : AudioFile) (W : Z)
  : gmap string VirtualMicrophone.value :=
  let k := len (decoded f) / W in
  <["index" := VirtualMicrophone.VInt 0]>
    (<["samples" :=
         VirtualMicrophone.VArray2
           (VirtualMicrophone.split_rows (Z.to_nat k) (Z.to_nat W)
              (getslice_to (decoded f) (k * W)))]>
       (<["audio_file" := VirtualMicrophone.VFile f]> ∅)).

(** A file of five samples, for a window of two: two whole windows and one
    sample left over. *)
Definition five_samples : AudioFile :=
  {| file_name := "five.wav"; st_size := 64;
     decoded := [0; 1#2; -(1#2); 1; 1#4]%Q |}.

(** A file of one sample: no whole window of two. *)
Definition one_sample : AudioFile :=
  {| file_name := "one.wav"; st_size := 48; decoded := [1#2]%Q |}.

(** ** Paths and files *)

(** [pathlib]: a path is the list of its components below its anchor (the
    root or the current directory); the anchor itself is the empty list, and
    its name is empty. *)
Module Path.

Definition parent (p : list string) : list string := removelast p.

Definition name (p : list string) : string := List.last p "".

(** [s.rfind(".")] *)
Fixpoint rfind_dot (s : string) : option nat :=
  match s with
  | EmptyString => None
  | String c s =>
      match rfind_dot s with
      | Some i => Some (S i)
      | None => if Ascii.eqb c "."%char then Some O else None
      end
  end.

(** The suffix of a name: from its last dot, unless that dot is the first
    or the last character. *)
Definition suffix (name : string) : string :=
  match rfind_dot name with
  | Some i =>
      if (0 <? i)%nat && (i <? String.length name - 1)%nat
      then String.substring i (String.length name - i) name
      else ""
  | None => ""
  end.

(** [p.with_suffix(suffix)], for a well-formed [suffix] (the code passes
    ".txt" and ".wav"). *)
Definition with_suffix (p : list string) (new_suffix : string)
  : result (list string) :=
  let name := name p in
  if decide (name = "") then Raise ValueError
  else
    let stem :=
      String.substring 0 (String.length name - String.length (suffix name))
        name in
    Ok (parent p ++ [stem +:+ new_suffix]).

End Path.

(** What a file holds: a WAV file, by the parameters and the frames the
    codec is given, or text. *)
Inductive content : Type :=
  | Wav (frame_rate sample_width channels : Z) (frames : list Z)
  | Text (text : string).

(** The file system: the directories besides the anchor, and the files. *)
Record filesystem : Type :=
  { dirs : gset (list string); files : gmap (list string) content }.

Definition is_dir (fs : filesystem) (p : list string) : bool :=
  bool_decide (p = []) || bool_decide (p ∈ dirs fs).

Definition is_file (fs : filesystem) (p : list string) : bool :=
  bool_decide (is_Some (files fs !! p)).

(** The path and its ancestors below the anchor, the shortest first. *)
Definition prefixes (p : list string) : list (list string) :=
  map (λ n, take n p) (seq 1 (length p)).

(** [p.mkdir(parents=True, exist_ok=True)]: a file in the way is an error
    and nothing is created; otherwise the missing directories are. *)
Definition mkdir (p : list string) (fs : filesystem) : result filesystem :=
  match find (is_file fs) (prefixes p) with
  | Some q =>
      Raise (if decide (q = p) then FileExistsError else NotADirectoryError)
  | None =>
      Ok {| dirs := dirs fs ∪ list_to_set (prefixes p); files := files fs |}
  end.

(** Opening [p] for writing and writing [c]. *)
Definition write_file (p : list string) (c : content) (fs : filesystem)
  : result filesystem :=
  if is_dir fs p then Raise IsADirectoryError
  else if negb (is_dir fs (Path.parent p)) then Raise FileNotFoundError
  else Ok {| dirs := dirs fs; files := <[p := c]> (files fs) |}.

(** ** [save_audio_segment] (audio.py, lines 264-289): the outcome and the
    file system after the call. *)
Definition save_audio_segment (audio : ndarray) (text : string)
    (base_path : list string) (fs : filesystem)
  : result unit * filesystem :=
  match mkdir (Path.parent base_path) fs with
  | Raise e => (Raise e, fs)
  | Ok fs =>
      match
        text_path ← Path.with_suffix base_path ".txt";
        audio_path ← Path.with_suffix base_path ".wav";
        frames ← float32_to_int16 audio;
        Ok (text_path, audio_path, frames)
      with
      | Raise e => (Raise e, fs)
      | Ok (text_path, audio_path, frames) =>
          match write_file audio_path
                  (Wav SAMPLES_PER_SECOND 2 1 frames) fs with
          | Raise e => (Raise e, fs)
          | Ok fs =>
              match write_file text_path (Text text) fs with
              | Raise e => (Raise e, fs)
              | Ok fs => (Ok (), fs)
              end
          end
      end
  end.

(** The state after a complete export. *)
Definition exported (fs1 : filesystem) (text_path audio_path : list string)
    (text : string) (frames : list Z) : filesystem :=
  {| dirs := dirs fs1;
     files := <[text_path := Text text]>
                (<[audio_path := Wav SAMPLES_PER_SECOND 2 1 frames]>
                   (files fs1)) |}.

(** * Properties *)

(** ** The examples of the docstring of [roll] *)

Example roll_doc_1 : roll [0; 0; 0] [1; 2; 3; 4] = Ok [2; 3; 4].
Proof. reflexivity. Qed.

Example roll_doc_2 : roll [0; 0; 0] [1; 2] = Ok [0; 1; 2].
Proof. reflexivity. Qed.

Example roll_doc_3 : roll [1; 2; 3] [4; 5] = Ok [3; 4; 5].
Proof. reflexivity. Qed.

(** ** Properties of [roll] *)

Section RollProperties.
Context {A : Type}.
Implicit Types buffer samples : list A.

Lemma slice_bound_neg n k :
  0 < k ≤ n → slice_bound n (- k) = Z.to_nat (n - k).
Proof.
  intros H. unfold slice_bound.
  destruct (Z.ltb_spec (- k) 0); [f_equal; lia | lia].
Qed.

Lemma np_roll_left buffer samples :
  (0 < length samples ≤ length buffer)%nat →
  np_roll buffer (- len samples)
  = drop (length samples mod length buffer) buffer
    ++ take (length samples mod length buffer) buffer.
Proof.
  intros H. unfold np_roll, len.
  destruct buffer as [|b buffer]; [simpl in H; lia|].
  rewrite Z.opp_involutive, <- Nat2Z.inj_mod, Nat2Z.id. reflexivity.
Qed.

Lemma length_np_roll buffer shift :
  length (np_roll buffer shift) = length buffer.
Proof.
  unfold np_roll. destruct buffer as [|b buffer]; [reflexivity|].
  rewrite length_app, length_drop, length_take. lia.
Qed.

Lemma roll_longer buffer samples :
  (1 ≤ length buffer ≤ length samples)%nat →
  roll buffer samples = Ok (last_n (length buffer) samples).
Proof.
  intros H. unfold roll, len.
  destruct (Z.ltb_spec (Z.of_nat (length buffer))
              (Z.of_nat (length samples))) as [Hlt|Hge].
  - unfold getslice_from, last_n, len.
    rewrite slice_bound_neg by lia. do 2 f_equal. lia.
  - assert (Heq : length samples = length buffer) by lia.
    fold (len samples). rewrite np_roll_left by lia.
    rewrite Heq, Nat.Div0.mod_same, drop_0, take_0, app_nil_r.
    unfold setslice_from, len.
    rewrite slice_bound_neg by lia.
    replace (Z.to_nat _) with 0%nat by lia.
    rewrite Nat.sub_0_r, decide_True by lia.
    unfold last_n. rewrite Heq, Nat.sub_diag, take_0, drop_0. reflexivity.
Qed.

Lemma roll_shorter buffer samples :
  (1 ≤ length samples < length buffer)%nat →
  roll buffer samples = Ok (drop (length samples) buffer ++ samples).
Proof.
  intros H. unfold roll, len.
  destruct (Z.ltb_spec (Z.of_nat (length buffer))
              (Z.of_nat (length samples))) as [Hlt|Hge]; [lia|].
  fold (len samples). rewrite np_roll_left by lia.
  rewrite Nat.mod_small by lia.
  unfold setslice_from, len.
  rewrite length_app, length_drop, length_take.
  rewrite slice_bound_neg by lia.
  replace (Z.to_nat _) with (length buffer - length samples)%nat by lia.
  rewrite decide_True by lia.
  rewrite take_app_length' by (rewrite length_drop; lia).
  reflexivity.
Qed.

(** With at least one sample and a non-empty buffer, [roll] returns an
    array as long as the buffer. *)
Lemma roll_length buffer samples :
  (1 ≤ length buffer)%nat → (1 ≤ length samples)%nat →
  ∃ r, roll buffer samples = Ok r ∧ length r = length buffer.
Proof.
  intros HN HS.
  destruct (decide (length buffer ≤ length samples)%nat) as [H|H].
  - eexists. split; [apply roll_longer; lia|].
    unfold last_n. rewrite length_drop. lia.
  - eexists. split; [apply roll_shorter; lia|].
    rewrite length_app, length_drop. lia.
Qed.

(** Without samples, [roll] raises on every non-empty buffer. *)
Lemma roll_no_samples buffer :
  (1 ≤ length buffer)%nat → roll buffer [] = Raise ValueError.
Proof.
  intros H. unfold roll, len.
  destruct (Z.ltb_spec (Z.of_nat (length buffer))
              (Z.of_nat (length (@nil A)))) as [Hlt|_];
    [simpl in Hlt; lia|].
  unfold setslice_from, slice_bound, len. rewrite length_np_roll. simpl.
  replace (Z.to_nat (Z.min 0 (Z.of_nat (length buffer)))) with 0%nat by lia.
  rewrite decide_False by lia. reflexivity.
Qed.

(** On an empty buffer, [roll] returns the samples, all of them. *)
Lemma roll_empty_buffer samples : roll [] samples = Ok samples.
Proof.
  destruct samples as [|s samples]; [reflexivity|].
  unfold roll, len.
  destruct (Z.ltb_spec (Z.of_nat (length (@nil A)))
              (Z.of_nat (length (s :: samples)))) as [_|H];
    [reflexivity | simpl in H; lia].
Qed.

(** C1: for a buffer of length N >= 1, samples at least as long as the
    buffer replace it by their last N elements, and shorter, non-empty
    samples shift the buffer left and are placed at its end. *)
Theorem roll_spec buffer samples :
  (1 ≤ length buffer)%nat →
  ((length buffer ≤ length samples)%nat →
     roll buffer samples = Ok (last_n (length buffer) samples))
  ∧ ((1 ≤ length samples < length buffer)%nat →
     roll buffer samples = Ok (drop (length samples) buffer ++ samples)).
Proof.
  intros HN. split; intros HS.
  - apply roll_longer. lia.
  - apply roll_shorter. lia.
Qed.

End RollProperties.

Lemma roll_spec_witness :
  roll [1; 2; 3] [4; 5; 6; 7] = Ok [5; 6; 7]
  ∧ roll [1; 2; 3] [4; 5] = Ok [3; 4; 5].
Proof.
  split.
  - apply (proj1 (roll_spec [1; 2; 3] [4; 5; 6; 7] ltac:(simpl; lia))).
    simpl; lia.
  - apply (proj2 (roll_spec [1; 2; 3] [4; 5] ltac:(simpl; lia))).
    simpl; lia.
Defined.

(** C2: [roll] does fail.  With no samples, [left_shift] is [-0 = 0], the
    assignment targets the whole buffer, [buffer[0:]], and numpy refuses to
    store an empty array in a slice of one element; with an empty buffer,
    [samples[-0:]] is all of [samples], not its last zero elements. *)
Theorem roll_empty_samples_raises :
  roll [7] [] = Raise ValueError
  ∧ roll [7; 8; 9] [] = Raise ValueError
  ∧ roll [] [1; 2] = Ok [1; 2].
Proof. repeat split. Qed.

(** ** Properties of [roll] in memory *)

Example mem_roll_example :
  let h0 : gmap Mem.loc (list Z) :=
    {[ 1%positive := [1; 2; 3]; 2%positive := [4; 5] ]} in
  let B := Mem.NdArray 1%positive 0 3 in
  let S := Mem.NdArray 2%positive 0 2 in
  match Mem.roll B S h0 with
  | (Ok r, h) => Mem.contents h r = [3; 4; 5] ∧ Mem.contents h B = [1; 2; 3]
  | (Raise _, _) => False
  end.
Proof. vm_compute. split; reflexivity. Qed.

Section MemProperties.
Context {A : Type}.
Implicit Types (h : gmap Mem.loc (list A)) (a : Mem.ndarray).

Lemma contents_agree h h' a :
  h' !! Mem.base a = h !! Mem.base a →
  Mem.contents h' a = Mem.contents h a.
Proof. intros E. unfold Mem.contents. rewrite E. reflexivity. Qed.

Lemma length_contents h a :
  Mem.valid h a → length (Mem.contents h a) = Mem.size a.
Proof.
  intros (blk & E & Hle). unfold Mem.contents. rewrite E. simpl.
  rewrite length_take, length_drop. lia.
Qed.

(** A block that exists before [roll] holds the same elements after it,
    whatever [roll] returns. *)
Lemma roll_preserves buffer samples h r h' (l : Mem.loc) :
  Mem.roll buffer samples h = (r, h') →
  l ∈ dom h → h' !! l = h !! l.
Proof.
  unfold Mem.roll. intros E Hl.
  destruct (_ <? _); [by inversion E|].
  unfold Mem.np_roll, Mem.alloc, Mem.setslice_from in E. simpl in E.
  assert (Hne : fresh (dom h) ≠ l).
  { intros <-. by apply (is_fresh (dom h)). }
  destruct (setslice_from _ _ _) in E; inversion E; subst; clear E.
  - unfold Mem.store. simpl.
    rewrite lookup_alter_ne by done. by rewrite lookup_insert_ne.
  - by rewrite lookup_insert_ne.
Qed.

Lemma slice_bound_le n bound : 0 ≤ n → Z.of_nat (slice_bound n bound) ≤ n.
Proof.
  intros Hn. unfold slice_bound. destruct (Z.ltb_spec bound 0); lia.
Qed.

Lemma length_setslice_from (dst src v : list A) start :
  setslice_from dst start src = Ok v → length v = length dst.
Proof.
  unfold setslice_from.
  assert (Hk : (slice_bound (len dst) start ≤ length dst)%nat).
  { pose proof (slice_bound_le (len dst) start). unfold len in *. lia. }
  case_decide as Hm.
  - intros [= <-]. rewrite length_app, length_take. lia.
  - destruct src as [|x [|? ?]]; intros [= <-].
    rewrite length_app, length_take, length_replicate. lia.
Qed.

Lemma contents_getslice_from h a start :
  Mem.valid h a →
  Mem.contents h (Mem.getslice_from a start)
  = getslice_from (Mem.contents h a) start.
Proof.
  intros Hv. unfold getslice_from, len.
  rewrite (length_contents h a Hv).
  unfold Mem.contents, Mem.getslice_from. simpl.
  set (k := slice_bound _ _).
  assert (Hk : (k ≤ Mem.size a)%nat).
  { pose proof (slice_bound_le (Z.of_nat (Mem.size a)) start). lia. }
  rewrite <- drop_drop, take_drop_commute. do 2 f_equal. lia.
Qed.

(** The memory-level [roll] computes the values of [roll]: it raises when
    [roll] does, and otherwise returns an array holding its result. *)
Lemma Mem_roll_values buffer samples h :
  Mem.valid h buffer → Mem.valid h samples →
  match Mem.roll buffer samples h with
  | (Ok r, h') =>
      roll (Mem.contents h buffer) (Mem.contents h samples)
      = Ok (Mem.contents h' r)
  | (Raise e, _) =>
      roll (Mem.contents h buffer) (Mem.contents h samples) = Raise e
  end.
Proof.
  intros Hb Hs. unfold Mem.roll, roll, len.
  rewrite (length_contents _ _ Hb), (length_contents _ _ Hs).
  destruct (_ <? _).
  - by rewrite (contents_getslice_from _ _ _ Hs).
  - unfold Mem.np_roll, Mem.alloc, Mem.setslice_from.
    set (l := fresh (dom h)).
    set (vals := np_roll (Mem.contents h buffer) _).
    set (h1 := <[l:=vals]> h).
    set (b := Mem.NdArray l 0 (length vals)).
    assert (Hl : l ≠ Mem.base samples).
    { intros E. destruct Hs as (blk & Hblk & _).
      apply (is_fresh (dom h)). fold l. rewrite E.
      apply elem_of_dom. by eexists. }
    assert (Hb1 : Mem.contents h1 b = vals).
    { unfold Mem.contents, h1, b. simpl.
      rewrite lookup_insert_eq. simpl. by rewrite drop_0, firstn_all. }
    assert (Hs1 : Mem.contents h1 samples = Mem.contents h samples).
    { apply contents_agree. unfold h1. by rewrite lookup_insert_ne. }
    rewrite Hb1, Hs1.
    destruct (setslice_from vals _ _) as [v|e] eqn:E; [|done].
    f_equal. unfold Mem.contents, Mem.store, h1, b. simpl.
    rewrite lookup_alter_eq, lookup_insert_eq. simpl.
    rewrite drop_0, (drop_all vals), app_nil_r.
    rewrite <- (length_setslice_from _ _ _ _ E). by rewrite firstn_all.
Qed.

(** When the samples are not longer than the buffer, the array [roll]
    returns is one that did not exist before the call. *)
Lemma roll_result_fresh buffer samples h r h' :
  (Mem.size samples ≤ Mem.size buffer)%nat →
  Mem.roll buffer samples h = (Ok r, h') →
  Mem.base r ∉ dom h.
Proof.
  intros Hle. unfold Mem.roll.
  destruct (Z.ltb_spec (Z.of_nat (Mem.size buffer))
              (Z.of_nat (Mem.size samples))); [lia|].
  unfold Mem.np_roll, Mem.alloc, Mem.setslice_from. simpl.
  destruct (setslice_from _ _ _); intros [= <- <-].
  apply is_fresh.
Qed.

(** C9: [roll] does not write to its buffer argument: an array that exists
    before a successful call holds the same elements after it; the shift
    and the overwrite are applied to a new array. *)
Theorem roll_buffer_unchanged buffer samples h r h' :
  Mem.base buffer ∈ dom h →
  Mem.roll buffer samples h = (Ok r, h') →
  Mem.contents h' buffer = Mem.contents h buffer
  ∧ ((Mem.size samples ≤ Mem.size buffer)%nat → Mem.base r ∉ dom h).
Proof.
  intros Hb E. split.
  - apply contents_agree. by eapply roll_preserves.
  - intros Hle. by eapply roll_result_fresh.
Qed.

End MemProperties.

Lemma roll_buffer_unchanged_witness :
  let h0 : gmap Mem.loc (list Z) :=
    {[ 1%positive := [1; 2; 3]; 2%positive := [4; 5] ]} in
  let B := Mem.NdArray 1%positive 0 3 in
  let S := Mem.NdArray 2%positive 0 2 in
  let r := Mem.NdArray 3%positive 0 3 in
  Mem.contents (Mem.roll B S h0).2 B = Mem.contents h0 B
  ∧ ((Mem.size S ≤ Mem.size B)%nat → Mem.base r ∉ dom h0).
Proof.
  intros h0 B S r.
  apply (roll_buffer_unchanged B S h0 r).
  - vm_compute. reflexivity.
  - vm_compute. reflexivity.
Defined.

Example float32_to_int16_example :
  float32_to_int16 (NdArray float32 [-1; -(1#2); -(1#65536); 0; 1#65536; 3#8; 32767#32768])%Q
  = Ok [-32768; -16384; 0; 0; 0; 12288; 32767].
Proof. reflexivity. Qed.

(** ** Properties of [WaveBuffer] *)

Section WaveBufferProperties.
Import WaveBuffer.

Lemma get_run (w : t) (ops : list op) :
  get (run w ops) = default (get w) (last_put ops).
Proof.
  revert w. induction ops as [|o ops IH]; intros w; [reflexivity|].
  change (run w (o :: ops)) with (run (step w o) ops).
  rewrite IH. simpl. destruct (last_put ops); [reflexivity|].
  destruct o; reflexivity.
Qed.

Lemma len_init (N : Z) (w : t) : __init__ N = Ok w → len (get w) = N.
Proof.
  unfold __init__, np_zeros. destruct (Z.ltb_spec N 0); [discriminate|].
  intros [= <-]. unfold len, get. simpl. rewrite length_replicate. lia.
Qed.

(** C5, as the code has it: the buffer is the array of the last [put], and
    it has the length given at construction until the first [put]; so the
    length stays N when every array put has length N. *)
Theorem WaveBuffer_length (N : Z) (w : t) (ops : list op) :
  __init__ N = Ok w →
  len (get (run w ops))
  = match last_put ops with Some s => len s | None => N end
  ∧ (Forall (λ o, match o with Put s => len s = N | Get => True end) ops →
     len (get (run w ops)) = N).
Proof.
  intros Hw. rewrite get_run. apply len_init in Hw. split.
  - destruct (last_put ops); [reflexivity | exact Hw].
  - intros Hall.
    assert (Hlast : ∀ s, last_put ops = Some s → len s = N).
    { clear w Hw. induction Hall as [|o ops Ho _ IH]; [discriminate|].
      intros s. simpl. destruct (last_put ops) as [s'|].
      - intros [= <-]. by apply IH.
      - destruct o; [|discriminate]. by intros [= <-]. }
    destruct (last_put ops) as [s|]; [by apply Hlast | exact Hw].
Qed.

End WaveBufferProperties.

Lemma WaveBuffer_length_witness :
  len (WaveBuffer.get
         (WaveBuffer.run (WaveBuffer.Make [0; 0]%Q)
            [WaveBuffer.Put [1; 1#2]%Q; WaveBuffer.Get]))
  = len [1; 1#2]%Q.
Proof.
  apply (proj2 (WaveBuffer_length 2 (WaveBuffer.Make [0; 0]%Q)
                  [WaveBuffer.Put [1; 1#2]%Q; WaveBuffer.Get] eq_refl)).
  repeat constructor.
Defined.

(** C5, as stated, fails: [put] stores the array it is given, whatever its
    length. *)
Lemma WaveBuffer_length_not_constant :
  ¬ (∀ (N : Z) (w : WaveBuffer.t) (ops : list WaveBuffer.op),
       WaveBuffer.__init__ N = Ok w →
       len (WaveBuffer.get (WaveBuffer.run w ops)) = N).
Proof.
  intros H.
  specialize (H 3 (WaveBuffer.Make [0; 0; 0]%Q) [WaveBuffer.Put [1%Q]]
                eq_refl).
  discriminate H.
Qed.

(** ** Properties of the validation *)

Section ValidationProperties.
Implicit Types (audio : ndarray) (a : list Q).

Lemma Qgtb_lt (x y : Q) : Qgtb x y = true ↔ (y < x)%Q.
Proof.
  unfold Qgtb. rewrite negb_true_iff, <- not_true_iff_false, Qle_bool_iff.
  split; [apply Qnot_le_lt | apply Qlt_not_le].
Qed.

Lemma np_any_abs_gt_1_Exists a :
  np_any_abs_gt_1 a = true ↔ Exists (λ s, (1 < Qabs s)%Q) a.
Proof.
  unfold np_any_abs_gt_1. induction a as [|s a IH]; simpl.
  - split; [discriminate | by intros ?%Exists_nil].
  - rewrite Exists_cons, orb_true_iff, IH, Qgtb_lt. reflexivity.
Qed.

Lemma np_any_abs_gt_1_in_range a :
  Forall (λ s, (-1 <= s <= 1)%Q) a → np_any_abs_gt_1 a = false.
Proof.
  intros Hall. apply not_true_iff_false.
  rewrite np_any_abs_gt_1_Exists, Exists_exists.
  intros (s & Hin & Hlt). rewrite Forall_forall in Hall.
  apply (Qlt_not_le _ _ Hlt), Qabs_Qle_condition, Hall, Hin.
Qed.

(** C8: the checks of [ValidateAudioArray], in their order: an empty array
    is [EmptyArray]; then an array of another element type is
    [ArrayTypeError]; then an array with a sample of absolute value above
    1 is [AudioOverflow]; an array that passes the first two checks and
    whose values all lie in [-1, 1], the bounds included, is accepted. *)
Theorem ValidateAudioArray_spec audio (expected : dtype) :
  (len (data audio) = 0 →
     ValidateAudioArray audio expected = Raise EmptyArray)
  ∧ (len (data audio) ≠ 0 → dtype_of audio ≠ expected →
     ValidateAudioArray audio expected = Raise ArrayTypeError)
  ∧ (len (data audio) ≠ 0 → dtype_of audio = expected →
     Exists (λ s, (1 < Qabs s)%Q) (data audio) →
     ValidateAudioArray audio expected = Raise AudioOverflow)
  ∧ (len (data audio) ≠ 0 → dtype_of audio = expected →
     Forall (λ s, (-1 <= s <= 1)%Q) (data audio) →
     ValidateAudioArray audio expected = Ok ()).
Proof.
  unfold ValidateAudioArray.
  destruct (Z.eqb_spec (len (data audio)) 0) as [H0|H0];
    [repeat split; intros; done|].
  destruct (decide (dtype_of audio = expected)) as [Hd|Hd].
  - rewrite bool_decide_eq_true_2 by done. simpl.
    repeat split; try done.
    + intros _ _ Hex. apply np_any_abs_gt_1_Exists in Hex. by rewrite Hex.
    + intros _ _ Hall. by rewrite np_any_abs_gt_1_in_range.
  - rewrite bool_decide_eq_false_2 by done. simpl.
    repeat split; intros; done.
Qed.

End ValidationProperties.

Lemma ValidateAudioArray_spec_witness :
  ValidateAudioArray (NdArray float64 []) float32 = Raise EmptyArray
  ∧ ValidateAudioArray (NdArray float64 [2%Q]) float32 = Raise ArrayTypeError
  ∧ ValidateAudioArray (NdArray float32 [0; -(3#2)]%Q) float32
    = Raise AudioOverflow
  ∧ ValidateAudioArray (NdArray float32 [-1; 1]%Q) float32 = Ok ().
Proof.
  split; [|split; [|split]].
  - apply (ValidateAudioArray_spec (NdArray float64 []) float32).
    reflexivity.
  - apply (ValidateAudioArray_spec (NdArray float64 [2%Q]) float32);
      discriminate.
  - apply (ValidateAudioArray_spec (NdArray float32 [0; -(3#2)]%Q) float32);
      [discriminate | reflexivity |].
    apply Exists_cons_tl, Exists_cons_hd. reflexivity.
  - apply (ValidateAudioArray_spec (NdArray float32 [-1; 1]%Q) float32);
      [discriminate | reflexivity |].
    repeat constructor; discriminate.
Defined.

(** ** Properties of the conversion *)

Section ConversionProperties.

Lemma Qtrunc_round_towards_zero (x : Q) : Qtrunc x = round_towards_zero x.
Proof.
  destruct x as [n d]. unfold Qtrunc, round_towards_zero, Qle_bool. simpl.
  destruct (Z.leb_spec (0 * Z.pos d) (n * 1)) as [H|H].
  - apply Z.quot_div_nonneg; lia.
  - unfold Qceiling. simpl.
    rewrite <- (Z.opp_involutive n) at 1.
    rewrite Z.quot_opp_l by lia.
    rewrite Z.quot_div_nonneg by lia. reflexivity.
Qed.

Lemma int16_of_bits_low (z : Z) :
  int16_of_bits (Z.land z 65535) = to_int16 z.
Proof.
  change 65535 with (Z.ones 16). rewrite Z.land_ones by lia.
  unfold int16_of_bits, to_int16.
  rewrite Z.testbit_eqb by lia.
  change (2 ^ 16) with 65536. change (2 ^ 15) with 32768.
  destruct (Z.eqb_spec ((z mod 65536) / 32768 mod 2) 1) as [H|H];
    revert H; Z.div_mod_to_equations; lia.
Qed.

Lemma cast_int16_spec (s : Q) :
  cast_int16 (s * inject_Z 32768) = spec_sample s.
Proof.
  unfold cast_int16, spec_sample.
  rewrite int16_of_bits_low, Qtrunc_round_towards_zero. reflexivity.
Qed.

(** C7: on an array that passes the validation, [float32_to_int16]
    returns, sample by sample, the product with 32768 rounded towards zero
    and reduced to sixteen bits, in an array as long as the input. *)
Theorem float32_to_int16_spec (audio : ndarray) :
  ValidateAudioArray audio float32 = Ok () →
  ∃ out, float32_to_int16 audio = Ok out
         ∧ out = map spec_sample (data audio)
         ∧ length out = length (data audio).
Proof.
  intros Hv. unfold float32_to_int16. rewrite Hv. simpl.
  eexists. split; [reflexivity|].
  unfold astype_int16, np_mul. rewrite map_map. split.
  - apply map_ext. intros s. apply cast_int16_spec.
  - apply length_map.
Qed.

Lemma round_towards_zero_mono (x y : Q) :
  (x <= y)%Q → round_towards_zero x ≤ round_towards_zero y.
Proof.
  intros Hxy. unfold round_towards_zero.
  destruct (Qle_bool 0 x) eqn:Hx, (Qle_bool 0 y) eqn:Hy.
  - by apply Qfloor_resp_le.
  - apply Qle_bool_iff in Hx. apply not_true_iff_false in Hy.
    exfalso. apply Hy, Qle_bool_iff. exact (Qle_trans _ _ _ Hx Hxy).
  - apply not_true_iff_false in Hx. apply Qle_bool_iff in Hy.
    transitivity 0.
    + change 0 with (Qceiling 0). apply Qceiling_resp_le.
      apply Qlt_le_weak, Qnot_le_lt. by rewrite <- Qle_bool_iff.
    + change 0 with (Qfloor 0). by apply Qfloor_resp_le.
  - by apply Qceiling_resp_le.
Qed.

(** A sample of [-1, 1) is converted without wrap-around. *)
Lemma spec_sample_in_range (s : Q) :
  (-1 <= s)%Q → (s < 1)%Q →
  spec_sample s = round_towards_zero (s * 32768)
  ∧ -32768 ≤ spec_sample s ≤ 32767.
Proof.
  intros Hlo Hhi.
  assert (Hr : -32768 ≤ round_towards_zero (s * 32768) ≤ 32767).
  { split.
    - change (-32768) with (round_towards_zero (-1 * 32768)).
      apply round_towards_zero_mono.
      apply Qmult_le_compat_r; [exact Hlo | discriminate].
    - rewrite <- Qtrunc_round_towards_zero.
      destruct s as [n d]. unfold Qlt in Hhi. simpl in Hhi.
      unfold Qtrunc. simpl.
      enough (n * 32768 ÷ Z.pos (d * 1) < 32768) by lia.
      destruct (Z.le_gt_cases 0 n) as [Hn|Hn].
      + rewrite Z.quot_div_nonneg by lia.
        apply Z.div_lt_upper_bound; lia.
      + replace (n * 32768) with (- (- n * 32768)) by lia.
        rewrite Z.quot_opp_l by lia.
        pose proof (Z.quot_pos (- n * 32768) (Z.pos (d * 1))). lia. }
  unfold spec_sample, to_int16. split.
  - rewrite Z.mod_small; lia.
  - rewrite Z.mod_small; lia.
Qed.

(** Below 1 the conversion is monotonic. *)
Lemma spec_sample_mono (s1 s2 : Q) :
  (-1 <= s1)%Q → (s1 <= s2)%Q → (s2 < 1)%Q →
  spec_sample s1 ≤ spec_sample s2.
Proof.
  intros H1 H12 H2.
  rewrite (proj1 (spec_sample_in_range s1 H1 (Qle_lt_trans _ _ _ H12 H2))).
  rewrite (proj1 (spec_sample_in_range s2 (Qle_trans _ _ _ H1 H12) H2)).
  apply round_towards_zero_mono.
  apply Qmult_le_compat_r; [exact H12 | discriminate].
Qed.

End ConversionProperties.

Lemma float32_to_int16_spec_witness :
  ∃ out, float32_to_int16 (NdArray float32 [-1; 3#8; 1]%Q) = Ok out
         ∧ out = map spec_sample [-1; 3#8; 1]%Q
         ∧ length out = 3%nat.
Proof.
  apply (float32_to_int16_spec (NdArray float32 [-1; 3#8; 1]%Q)).
  reflexivity.
Defined.

(** C6: the conversion is not monotonic on [-1, 1]: the sample 1.0 is
    multiplied to 32768, one more than the largest 16-bit signed integer,
    and the cast wraps it to -32768, below the image of every other
    sample. *)
Theorem float32_to_int16_wraps_at_one :
  float32_to_int16 (NdArray float32 [1#2; 1]%Q) = Ok [16384; -32768].
Proof. reflexivity. Qed.


(** ** Properties of [VirtualMicrophone] *)

Section VirtualMicrophoneProperties.
Import VirtualMicrophone.
Implicit Types (self globals : gmap string value) (f : AudioFile).

Lemma init_built globals f (W : Z) :
  globals !! "SAMPLES_PER_WINDOW" = Some (VInt W) → 0 < W →
  st_size f ≠ 0 →
  __init__ globals f = Ok (built f W).
Proof.
  intros HW Hpos Hsz. unfold __init__, load_audio_file, ValidateAudioFile.
  destruct (Z.eqb_spec (st_size f) 0) as [|_]; [done|]. simpl.
  unfold load_global. rewrite HW. simpl.
  destruct (Z.eqb_spec W 0) as [|_]; [lia|]. simpl.
  set (k := len (decoded f) / W).
  assert (Hk : 0 ≤ k ∧ k * W ≤ len (decoded f)).
  { unfold k, len. split; [apply Z.div_pos; lia|].
    rewrite Z.mul_comm. apply Z.mul_div_le. lia. }
  assert (Hlen : len (getslice_to (decoded f) (k * W)) = k * W).
  { unfold getslice_to, slice_bound, len at 1.
    destruct (Z.ltb_spec (k * W) 0); [lia|].
    rewrite length_take. unfold len in *. lia. }
  rewrite Hlen.
  destruct (Z.eqb_spec k (-1)); [lia|].
  destruct (Z.eqb_spec W (-1)); [lia|]. simpl.
  destruct (Z.leb_spec 0 k); [|lia].
  destruct (Z.leb_spec 0 W); [|lia].
  rewrite Z.eqb_refl. reflexivity.
Qed.

Lemma init_module_globals f :
  st_size f ≠ 0 →
  __init__ module_globals f = Raise (NameError "SAMPLES_PER_WINDOW").
Proof.
  intros Hsz. unfold __init__, load_audio_file, ValidateAudioFile.
  destruct (Z.eqb_spec (st_size f) 0) as [|_]; [done|]. reflexivity.
Qed.

(** Without an attribute [segments], [get] raises on the comparison and
    leaves the instance as it is. *)
Lemma get_without_segments self (i : value) :
  self !! "index" = Some i → self !! "segments" = None →
  get self = (Raise (AttributeError "segments"), self).
Proof.
  intros Hi Hs. unfold get, get_body, getattr. rewrite Hi, Hs. reflexivity.
Qed.

Lemma gets_without_segments (n : nat) self (i : value) :
  self !! "index" = Some i → self !! "segments" = None →
  gets n self = (replicate n (Raise (AttributeError "segments")), self).
Proof.
  intros Hi Hs. induction n as [|n IH]; [reflexivity|].
  simpl. rewrite (get_without_segments self i Hi Hs), IH. reflexivity.
Qed.

Lemma get_built f (W : Z) :
  get (built f W) = (Raise (AttributeError "segments"), built f W).
Proof. apply (get_without_segments _ (VInt 0)); reflexivity. Qed.

End VirtualMicrophoneProperties.

(** C3: on a file with two whole windows, the first [get] already raises,
    an [AttributeError]: [__init__] keeps the number of segments in a local
    name and [get] reads the attribute [self.segments].  No window is
    returned. *)
Theorem VirtualMicrophone_first_get_raises :
  let globals :=
    <["SAMPLES_PER_WINDOW" := VirtualMicrophone.VInt 2]>
      VirtualMicrophone.module_globals in
  ∃ mic,
    VirtualMicrophone.__init__ globals five_samples = Ok mic
    ∧ mic !! "samples"
      = Some (VirtualMicrophone.VArray2 [[0; 1#2]; [-(1#2); 1]]%Q)
    ∧ mic !! "index" = Some (VirtualMicrophone.VInt 0)
    ∧ VirtualMicrophone.get mic = (Raise (AttributeError "segments"), mic).
Proof.
  intros globals. exists (built five_samples 2).
  split; [|split; [|split]].
  - apply init_built; [reflexivity | lia | discriminate].
  - reflexivity.
  - reflexivity.
  - apply get_built.
Qed.

(** C4: on a file with no whole window the cursor is at the segment count
    from the start, and every [get] raises the [AttributeError] of the
    missing attribute, not the exhaustion error. *)
Theorem VirtualMicrophone_exhausted_get_raises :
  let globals :=
    <["SAMPLES_PER_WINDOW" := VirtualMicrophone.VInt 2]>
      VirtualMicrophone.module_globals in
  ∃ mic,
    VirtualMicrophone.__init__ globals one_sample = Ok mic
    ∧ mic !! "samples" = Some (VirtualMicrophone.VArray2 [])
    ∧ mic !! "index" = Some (VirtualMicrophone.VInt 0)
    ∧ VirtualMicrophone.gets 3 mic
      = (replicate 3 (Raise (AttributeError "segments")), mic)
    ∧ Raise (AttributeError "segments")
      ≠ Raise (T := VirtualMicrophone.value)
          (Exception "Unexpected end of samples").
Proof.
  intros globals. exists (built one_sample 2).
  split; [|split; [|split; [|split]]].
  - apply init_built; [reflexivity | lia | discriminate].
  - reflexivity.
  - reflexivity.
  - apply (gets_without_segments 3 _ (VirtualMicrophone.VInt 0)); reflexivity.
  - discriminate.
Qed.

(** Had [__init__] stored the segment count, [get] would still return
    [None]: its body ends without [return samples]. *)
Example get_returns_None :
  let mic := <["segments" := VirtualMicrophone.VInt 2]> (built five_samples 2) in
  VirtualMicrophone.get mic
  = (Ok VirtualMicrophone.VNone, <["index" := VirtualMicrophone.VInt 1]> mic).
Proof. reflexivity. Qed.

(** In the module as it is, building the instance raises. *)
Example init_raises_NameError :
  VirtualMicrophone.__init__ VirtualMicrophone.module_globals five_samples
  = Raise (NameError "SAMPLES_PER_WINDOW").
Proof. apply init_module_globals. discriminate. Qed.

(** ** Examples of paths and of an export *)

Example with_suffix_example :
  Path.with_suffix ["out"; "clip.0.raw"] ".wav" = Ok ["out"; "clip.0.wav"]
  ∧ Path.with_suffix ["out"; "clip"] ".txt" = Ok ["out"; "clip.txt"]
  ∧ Path.with_suffix ["out"; ".hidden"] ".txt" = Ok ["out"; ".hidden.txt"]
  ∧ Path.with_suffix [] ".txt" = Raise ValueError.
Proof. repeat split. Qed.

Example save_audio_segment_example :
  save_audio_segment (NdArray float32 [1#2; -(1#4)]%Q) "hello" ["out"; "clip"]
    {| dirs := ∅; files := ∅ |}
  = (Ok (),
     {| dirs := {[ ["out"] ]};
        files := {[ ["out"; "clip.wav"] := Wav 16000 2 1 [16384; -8192];
                    ["out"; "clip.txt"] := Text "hello" ]} |}).
Proof. vm_compute. reflexivity. Qed.

(** ** Properties of [save_audio_segment] *)

Section ExportProperties.
Implicit Types (fs : filesystem) (p : list string) (audio : ndarray).

Lemma float32_to_int16_invalid audio (e : exn) :
  ValidateAudioArray audio float32 = Raise e →
  float32_to_int16 audio = Raise e.
Proof. intros H. unfold float32_to_int16. rewrite H. reflexivity. Qed.

Lemma mkdir_files p fs fs' : mkdir p fs = Ok fs' → files fs' = files fs.
Proof.
  unfold mkdir. destruct (find _ _); [discriminate|]. by intros [= <-].
Qed.

Lemma elem_of_prefixes p : p ≠ [] → p ∈ prefixes p.
Proof.
  intros Hp. unfold prefixes. apply list_elem_of_fmap.
  exists (length p). split; [by rewrite firstn_all|].
  apply elem_of_seq. destruct p; [done | simpl; lia].
Qed.

Lemma mkdir_is_dir p fs fs' : mkdir p fs = Ok fs' → is_dir fs' p = true.
Proof.
  unfold mkdir. destruct (find _ _); [discriminate|]. intros [= <-].
  unfold is_dir. simpl. destruct (decide (p = [])) as [->|Hp]; [done|].
  rewrite (bool_decide_eq_false_2 _ Hp). simpl.
  apply bool_decide_eq_true_2, elem_of_union_r, elem_of_list_to_set.
  by apply elem_of_prefixes.
Qed.

Lemma with_suffix_ok p (new_suffix : string) :
  Path.name p ≠ "" → is_ok (Path.with_suffix p new_suffix) = true.
Proof.
  intros Hn. unfold Path.with_suffix. by rewrite decide_False.
Qed.

(** C10: when the samples fail the validation, [save_audio_segment]
    writes no file; and where the directory can be created and the path
    has a name, the call raises the error of the validation, with the
    directory already created. *)
Theorem save_audio_segment_invalid audio (text : string) p fs (e : exn) :
  ValidateAudioArray audio float32 = Raise e →
  files (save_audio_segment audio text p fs).2 = files fs
  ∧ ∀ fs1, mkdir (Path.parent p) fs = Ok fs1 → Path.name p ≠ "" →
      save_audio_segment audio text p fs = (Raise e, fs1)
      ∧ is_dir fs1 (Path.parent p) = true
      ∧ is_file fs1 = is_file fs.
Proof.
  intros Hv. apply float32_to_int16_invalid in Hv.
  unfold save_audio_segment. rewrite Hv.
  destruct (mkdir (Path.parent p) fs) as [fs1|e1] eqn:Hm.
  - split.
    + destruct (Path.with_suffix p ".txt") as [t|]; simpl;
        [destruct (Path.with_suffix p ".wav") as [w|]; simpl|];
        exact (mkdir_files _ _ _ Hm).
    + intros fs1' [= <-] Hn.
      pose proof (with_suffix_ok p ".txt" Hn) as Ht.
      pose proof (with_suffix_ok p ".wav" Hn) as Hw.
      destruct (Path.with_suffix p ".txt") as [t|]; [|done].
      destruct (Path.with_suffix p ".wav") as [w|]; [|done]. simpl.
      split; [reflexivity|]. split; [by eapply mkdir_is_dir|].
      unfold is_file. by rewrite (mkdir_files _ _ _ Hm).
  - split; [reflexivity | discriminate].
Qed.

End ExportProperties.

Lemma save_audio_segment_invalid_witness :
  let fs := {| dirs := ∅; files := ∅ |} in
  let fs1 := {| dirs := {[ ["out"] ]}; files := ∅ |} in
  save_audio_segment (NdArray float32 [3#2]%Q) "hello" ["out"; "clip"] fs
  = (Raise AudioOverflow, fs1)
  ∧ is_dir fs1 ["out"] = true
  ∧ is_file fs1 = is_file fs.
Proof.
  intros fs fs1.
  apply (proj2 (save_audio_segment_invalid (NdArray float32 [3#2]%Q) "hello"
                  ["out"; "clip"] fs AudioOverflow eq_refl) fs1).
  - vm_compute. reflexivity.
  - discriminate.
Defined.

(** * Further properties *)

(** ** [roll] as a sliding window *)

Section RollWindow.
Context {A : Type}.
Implicit Types buffer samples : list A.

Lemma length_last_n (n : nat) (l : list A) :
  (n ≤ length l)%nat → length (last_n n l) = n.
Proof. intros H. unfold last_n. rewrite length_drop. lia. Qed.

(** With at least one sample, [roll] keeps the end of the buffer followed by
    the samples. *)
Lemma roll_window buffer samples :
  (1 ≤ length buffer)%nat → (1 ≤ length samples)%nat →
  roll buffer samples = Ok (last_n (length buffer) (buffer ++ samples)).
Proof.
  intros HN HS. unfold last_n. rewrite length_app.
  replace (length buffer + length samples - length buffer)%nat
    with (length samples) by lia.
  destruct (decide (length buffer ≤ length samples)%nat) as [H|H].
  - rewrite roll_longer by lia. unfold last_n.
    rewrite drop_app_ge by lia. reflexivity.
  - rewrite roll_shorter by lia.
    rewrite drop_app_le by lia. reflexivity.
Qed.

Lemma last_n_app_last_n (n : nat) (l s : list A) :
  (n ≤ length l)%nat →
  last_n n (last_n n l ++ s) = last_n n (l ++ s).
Proof.
  intros H. unfold last_n at 1 3.
  rewrite !length_app, length_last_n by lia. unfold last_n.
  replace (n + length s - n)%nat with (length s) by lia.
  destruct (decide (n ≤ length s)%nat) as [Hs|Hs].
  - rewrite !drop_app_ge by (rewrite ?length_drop; lia).
    rewrite length_drop. f_equal. lia.
  - rewrite !drop_app_le by (rewrite ?length_drop; lia).
    rewrite drop_drop. do 2 f_equal. lia.
Qed.

(** X1: for a non-empty buffer and at least one sample, [roll] returns the
    last [len(buffer)] elements of the buffer followed by the samples, an
    array as long as the buffer. *)
Theorem roll_is_window buffer samples :
  (1 ≤ length buffer)%nat → (1 ≤ length samples)%nat →
  ∃ r, roll buffer samples = Ok r
       ∧ r = last_n (length buffer) (buffer ++ samples)
       ∧ length r = length buffer.
Proof.
  intros HN HS. eexists. split; [by apply roll_window|]. split; [done|].
  apply length_last_n. rewrite length_app. lia.
Qed.

(** X2: rolling two batches one after the other is rolling their
    concatenation. *)
Theorem roll_roll buffer samples1 samples2 :
  (1 ≤ length buffer)%nat →
  (1 ≤ length samples1)%nat → (1 ≤ length samples2)%nat →
  ∃ buffer1, roll buffer samples1 = Ok buffer1
             ∧ roll buffer1 samples2 = roll buffer (samples1 ++ samples2).
Proof.
  intros HN H1 H2. eexists. split; [by apply roll_window|].
  assert (Hl : length (last_n (length buffer) (buffer ++ samples1))
               = length buffer).
  { apply length_last_n. rewrite length_app. lia. }
  rewrite !roll_window by (rewrite ?Hl, ?length_app; lia).
  rewrite Hl, last_n_app_last_n by (rewrite length_app; lia).
  by rewrite <- app_assoc.
Qed.

(** X3: without samples, [roll] raises [ValueError] on every non-empty
    buffer, and returns the empty array on the empty buffer. *)
Theorem roll_without_samples buffer :
  roll buffer [] = match buffer with [] => Ok [] | _ => Raise ValueError end.
Proof.
  destruct buffer as [|b buffer]; [reflexivity|].
  apply roll_no_samples. simpl. lia.
Qed.

(** X4: on an empty buffer [roll] returns all the samples: the result is
    as long as the samples, not as the buffer. *)
Theorem roll_on_empty_buffer samples :
  roll [] samples = Ok samples.
Proof. apply roll_empty_buffer. Qed.

End RollWindow.

Lemma roll_is_window_witness :
  ∃ r, roll [1; 2; 3] [4; 5] = Ok r
       ∧ r = last_n 3 ([1; 2; 3] ++ [4; 5])
       ∧ length r = 3%nat.
Proof. apply (roll_is_window [1; 2; 3] [4; 5]); simpl; lia. Defined.

Lemma roll_roll_witness :
  ∃ buffer1, roll [1; 2; 3] [4; 5] = Ok buffer1
             ∧ roll buffer1 [6; 7] = roll [1; 2; 3] ([4; 5] ++ [6; 7]).
Proof. apply (roll_roll [1; 2; 3] [4; 5] [6; 7]); simpl; lia. Defined.

(** ** [roll] and the memory of its arguments *)

Section RollMemory.
Context {A : Type}.
Implicit Types (h : gmap Mem.loc (list A)) (a : Mem.ndarray).

(** When the samples are longer than the buffer, [roll] allocates nothing
    and returns a view of the end of the samples. *)
Lemma roll_longer_view buffer samples h :
  (1 ≤ Mem.size buffer < Mem.size samples)%nat →
  Mem.roll buffer samples h
  = (Ok (Mem.NdArray (Mem.base samples)
           (Mem.offset samples + (Mem.size samples - Mem.size buffer))
           (Mem.size buffer)), h).
Proof.
  intros H. unfold Mem.roll.
  destruct (Z.ltb_spec (Z.of_nat (Mem.size buffer))
              (Z.of_nat (Mem.size samples))); [|lia].
  unfold Mem.getslice_from. rewrite slice_bound_neg by lia.
  do 3 f_equal; lia.
Qed.

(** X5: [roll] writes to no array that exists before the call, be it the
    buffer, the samples or any other, whether it returns or raises. *)
Theorem roll_frame buffer samples a h r h' :
  Mem.base a ∈ dom h →
  Mem.roll buffer samples h = (r, h') →
  Mem.contents h' a = Mem.contents h a.
Proof.
  intros Ha E. apply contents_agree. by eapply roll_preserves.
Qed.

(** X6: when the samples are longer than the buffer, the array [roll]
    returns shares its memory with the samples: an assignment to the result
    overwrites the last [len(buffer)] elements of the samples. *)
Theorem roll_result_aliases_samples buffer samples src h r h1 h2 :
  Mem.valid h samples →
  (1 ≤ Mem.size buffer < Mem.size samples)%nat →
  length (Mem.contents h src) = Mem.size buffer →
  Mem.roll buffer samples h = (Ok r, h1) →
  Mem.setslice_from r 0 src h1 = (Ok (), h2) →
  Mem.contents h2 samples
  = take (Mem.size samples - Mem.size buffer) (Mem.contents h samples)
    ++ Mem.contents h src.
Proof.
  intros (blk & Hblk & Hlen) Hsz Hsrc Hroll Hset.
  rewrite roll_longer_view in Hroll by done.
  injection Hroll as <- <-.
  set (k := (Mem.size samples - Mem.size buffer)%nat) in *.
  set (r := Mem.NdArray _ _ _) in Hset.
  assert (Hr : length (Mem.contents h r) = Mem.size buffer).
  { apply (length_contents h r). exists blk. split; [done|].
    simpl. unfold k. lia. }
  unfold Mem.setslice_from, setslice_from in Hset.
  unfold slice_bound, len in Hset. simpl in Hset.
  replace (Z.to_nat (Z.min 0 _)) with 0%nat in Hset by lia.
  rewrite Nat.sub_0_r, Hr, decide_True in Hset by done.
  simpl in Hset. injection Hset as <-.
  assert (Hc : Mem.contents h samples
               = take (Mem.size samples) (drop (Mem.offset samples) blk)).
  { unfold Mem.contents. by rewrite Hblk. }
  rewrite Hc. clear Hc.
  unfold Mem.contents at 1, Mem.store. simpl.
  rewrite lookup_alter_eq, Hblk. simpl.
  rewrite !drop_app_le by (rewrite length_take; lia).
  rewrite <- take_drop_commute.
  rewrite take_app_ge by (rewrite length_take, length_drop; lia).
  rewrite length_take, length_drop.
  replace (Mem.size samples - k `min` (length blk - Mem.offset samples))%nat
    with (Mem.size buffer) by (unfold k; lia).
  rewrite take_app_length' by done.
  rewrite take_take. do 2 f_equal. lia.
Qed.

End RollMemory.

Lemma roll_frame_witness :
  let h0 : gmap Mem.loc (list Z) :=
    {[ 1%positive := [1; 2; 3]; 2%positive := [4; 5] ]} in
  let B := Mem.NdArray 1%positive 0 3 in
  let S := Mem.NdArray 2%positive 2 0 in
  (Mem.roll B S h0).1 = Raise ValueError
  ∧ Mem.contents (Mem.roll B S h0).2 B = Mem.contents h0 B.
Proof.
  intros h0 B S. split; [vm_compute; reflexivity|].
  apply (roll_frame B S B h0 (Mem.roll B S h0).1).
  - vm_compute. reflexivity.
  - vm_compute. reflexivity.
Defined.

Lemma roll_result_aliases_samples_witness :
  let h0 : gmap Mem.loc (list Z) :=
    {[ 1%positive := [1; 2]; 2%positive := [3; 4; 5]; 3%positive := [8; 9] ]} in
  let B := Mem.NdArray 1%positive 0 2 in
  let S := Mem.NdArray 2%positive 0 3 in
  let src := Mem.NdArray 3%positive 0 2 in
  let r := Mem.NdArray 2%positive 1 2 in
  Mem.contents (Mem.setslice_from r 0 src h0).2 S = [3] ++ [8; 9].
Proof.
  intros h0 B S src r.
  apply (roll_result_aliases_samples B S src h0 r h0).
  - exists [3; 4; 5]. split; [reflexivity | simpl; lia].
  - simpl; lia.
  - reflexivity.
  - vm_compute. reflexivity.
  - vm_compute. reflexivity.
Defined.

(** ** What the validation accepts, and what the conversion returns *)

Section ConversionRange.
Implicit Types (audio : ndarray) (s : Q).



Lemma to_int16_range (z : Z) : -32768 ≤ to_int16 z ≤ 32767.
Proof. unfold to_int16. Z.div_mod_to_equations. lia. Qed.

Lemma cast_int16_range (x : Q) : -32768 ≤ cast_int16 x ≤ 32767.
Proof. unfold cast_int16. rewrite int16_of_bits_low. apply to_int16_range. Qed.

(** X8: every value [float32_to_int16] returns is a 16-bit signed integer,
    and it returns one value per sample. *)
Theorem float32_to_int16_range audio (out : list Z) :
  float32_to_int16 audio = Ok out →
  Forall (λ z, -32768 ≤ z ≤ 32767) out
  ∧ length out = length (data audio).
Proof.
  unfold float32_to_int16.
  destruct (ValidateAudioArray audio float32); [|discriminate].
  simpl. intros [= <-]. unfold astype_int16, np_mul. split.
  - apply Forall_forall. intros z Hz.
    apply list_elem_of_fmap in Hz as (x & -> & _). apply cast_int16_range.
  - by rewrite !length_map.
Qed.

(** X9: [float32_to_int16] raises exactly when the validation of its
    argument as a float32 array does, and the same exception, one of
    [EmptyArray], [ArrayTypeError] and [AudioOverflow]. *)
Theorem float32_to_int16_raises_iff audio (e : exn) :
  (float32_to_int16 audio = Raise e
   ↔ ValidateAudioArray audio float32 = Raise e)
  ∧ (float32_to_int16 audio = Raise e →
     e = EmptyArray ∨ e = ArrayTypeError ∨ e = AudioOverflow).
Proof.
  assert (Hiff : float32_to_int16 audio = Raise e
                 ↔ ValidateAudioArray audio float32 = Raise e).
  { unfold float32_to_int16.
    destruct (ValidateAudioArray audio float32) as [[]|e']; simpl;
      [split; discriminate | split; intros [= ->]; reflexivity]. }
  split; [exact Hiff|]. intros H%Hiff. revert H.
  unfold ValidateAudioArray.
  repeat match goal with
         | |- context [if ?b then _ else _] => destruct b
         end; intros [= <-]; auto.
Qed.

Lemma cast_int16_trunc s :
  (-1 <= s)%Q → (s < 1)%Q →
  cast_int16 (s * inject_Z 32768) = Qtrunc (s * inject_Z 32768).
Proof.
  intros Hlo Hhi. rewrite cast_int16_spec.
  rewrite (proj1 (spec_sample_in_range s Hlo Hhi)).
  symmetry. apply Qtrunc_round_towards_zero.
Qed.

(** X10: on [-1, 1) the conversion of a sample is monotonic. *)
Theorem cast_int16_monotone s1 s2 :
  (-1 <= s1)%Q → (s1 <= s2)%Q → (s2 < 1)%Q →
  cast_int16 (s1 * inject_Z 32768) ≤ cast_int16 (s2 * inject_Z 32768).
Proof.
  intros H1 H12 H2. rewrite !cast_int16_spec. by apply spec_sample_mono.
Qed.

Lemma Qtrunc_opp (x : Q) : Qtrunc (- x) = - Qtrunc x.
Proof.
  destruct x as [n d]. unfold Qtrunc. simpl. apply Z.quot_opp_l. lia.
Qed.

(** X11: strictly inside (-1, 1) the conversion is odd: the opposite
    sample is converted to the opposite integer. *)
Theorem cast_int16_odd s :
  (-1 < s)%Q → (s < 1)%Q →
  cast_int16 (- s * inject_Z 32768) = - cast_int16 (s * inject_Z 32768).
Proof.
  intros Hlo Hhi.
  assert (Hlo' : (-1 <= - s)%Q).
  { exact (Qopp_le_compat s 1 (Qlt_le_weak _ _ Hhi)). }
  assert (Hhi' : (- s < 1)%Q).
  { exact (Qopp_lt_compat (-1) s Hlo). }
  rewrite !cast_int16_trunc
    by (assumption || (apply Qlt_le_weak; assumption)).
  rewrite <- Qtrunc_opp. destruct s as [n d]. unfold Qtrunc. simpl.
  f_equal. lia.
Qed.

(** X12: on [-1, 1) the conversion truncates: the integer returned lies
    between zero and the scaled sample, less than one unit from it. *)
Theorem cast_int16_truncates s :
  (-1 <= s)%Q → (s < 1)%Q →
  let x := (s * inject_Z 32768)%Q in
  let z := cast_int16 x in
  ((0 <= s)%Q → 0 ≤ z ∧ (inject_Z z <= x)%Q ∧ (x < inject_Z (z + 1))%Q)
  ∧ ((s <= 0)%Q → z ≤ 0 ∧ (inject_Z (z - 1) < x)%Q ∧ (x <= inject_Z z)%Q).
Proof.
  intros Hlo Hhi x z. unfold z, x. rewrite cast_int16_trunc by done.
  destruct s as [n d]. unfold Qtrunc, Qle, Qlt. simpl.
  set (a := n * 32768). set (b := Z.pos (d * 1)).
  assert (Hb : 0 < b) by (unfold b; lia).
  pose proof (Z.quot_rem' a b) as Hqr.
  split; intros Hs; assert (Ha : 0 ≤ a ∨ a ≤ 0) by (unfold a; lia).
  - assert (Ha' : 0 ≤ a) by (unfold a; lia).
    pose proof (Z.rem_bound_pos a b Ha' Hb).
    pose proof (Z.quot_pos a b Ha' Hb). nia.
  - assert (Ha' : a ≤ 0) by (unfold a; lia).
    pose proof (Z.rem_bound_pos_neg a b Hb Ha').
    assert (Hq : a ÷ b ≤ 0).
    { replace a with (- - a) by lia. rewrite Z.quot_opp_l by lia.
      pose proof (Z.quot_pos (- a) b). lia. }
    nia.
Qed.

(** X13: a sample of magnitude below [1/32768] is converted to 0, whatever
    its sign. *)
Theorem cast_int16_dead_zone s :
  (Qabs s < 1 # 32768)%Q → cast_int16 (s * inject_Z 32768) = 0.
Proof.
  intros Habs.
  assert (Hs : (- (1 # 32768) < s)%Q ∧ (s < 1 # 32768)%Q).
  { apply Qabs_Qlt_condition, Habs. }
  destruct Hs as [Hlo Hhi].
  rewrite cast_int16_trunc.
  - destruct s as [n d]. unfold Qtrunc, Qlt in *. simpl in *.
    destruct (Z.le_gt_cases 0 n) as [Hn|Hn].
    + apply Z.quot_small. lia.
    + replace (n * 32768) with (- (- n * 32768)) by lia.
      rewrite Z.quot_opp_l by lia. rewrite Z.quot_small; lia.
  - apply Qlt_le_weak. refine (Qlt_trans _ _ _ _ Hlo). reflexivity.
  - refine (Qlt_trans _ _ _ Hhi _). reflexivity.
Qed.

End ConversionRange.


Lemma float32_to_int16_range_witness :
  Forall (λ z, -32768 ≤ z ≤ 32767) [16384; -32768]
  ∧ length [16384; -32768] = 2%nat.
Proof.
  apply (float32_to_int16_range (NdArray float32 [1#2; 1]%Q)).
  reflexivity.
Defined.

Lemma float32_to_int16_raises_iff_witness :
  float32_to_int16 (NdArray float64 [1#2]%Q) = Raise ArrayTypeError.
Proof.
  apply (proj1 (float32_to_int16_raises_iff (NdArray float64 [1#2]%Q)
                  ArrayTypeError)).
  reflexivity.
Defined.

Lemma cast_int16_monotone_witness :
  cast_int16 (-(1#2) * inject_Z 32768) ≤ cast_int16 ((3#8) * inject_Z 32768).
Proof.
  apply (cast_int16_monotone (-(1#2)) (3#8)); discriminate || reflexivity.
Defined.

Lemma cast_int16_odd_witness :
  cast_int16 (- (3#8) * inject_Z 32768) = - cast_int16 ((3#8) * inject_Z 32768).
Proof. apply (cast_int16_odd (3#8)); reflexivity. Defined.

Lemma cast_int16_truncates_witness :
  let x := ((-(1#65536)) * inject_Z 32768)%Q in
  let z := cast_int16 x in
  z ≤ 0 ∧ (inject_Z (z - 1) < x)%Q ∧ (x <= inject_Z z)%Q.
Proof.
  apply (proj2 (cast_int16_truncates (-(1#65536))
                  ltac:(discriminate) ltac:(reflexivity))).
  discriminate.
Defined.

Lemma cast_int16_dead_zone_witness :
  cast_int16 ((-(1#65536)) * inject_Z 32768) = 0.
Proof. apply (cast_int16_dead_zone (-(1#65536))). reflexivity. Defined.

(** ** Building and reading a [VirtualMicrophone] *)

Section VirtualMicrophoneReplay.
Import VirtualMicrophone.
Implicit Types (self globals : gmap string value) (f : AudioFile).

Lemma length_split_rows (rows cols : nat) (a : list Q) :
  length (split_rows rows cols a) = rows.
Proof.
  revert a. induction rows as [|rows IH]; intros a; simpl; [done|].
  by rewrite IH.
Qed.

Lemma concat_split_rows (rows cols : nat) (a : list Q) :
  concat (split_rows rows cols a) = take (rows * cols) a.
Proof.
  revert a. induction rows as [|rows IH]; intros a; simpl; [done|].
  rewrite IH. apply take_take_drop.
Qed.

Lemma Forall_length_split_rows (rows cols : nat) (a : list Q) :
  (rows * cols ≤ length a)%nat →
  Forall (λ w, length w = cols) (split_rows rows cols a).
Proof.
  revert a. induction rows as [|rows IH]; intros a Hle; simpl; [done|].
  constructor.
  - rewrite length_take. simpl in Hle. lia.
  - apply IH. rewrite length_drop. simpl in Hle. lia.
Qed.

(** X14: in the module as it is written, building a [VirtualMicrophone]
    raises for every file: [EmptyFile] for an empty one, and otherwise the
    [NameError] of [SAMPLES_PER_WINDOW], which the module does not define. *)
Theorem init_raises_as_written f :
  __init__ module_globals f
  = Raise (if st_size f =? 0 then EmptyFile
           else NameError "SAMPLES_PER_WINDOW").
Proof.
  unfold __init__, load_audio_file, ValidateAudioFile.
  destruct (st_size f =? 0); reflexivity.
Qed.

(** X15: with [SAMPLES_PER_WINDOW] bound to a positive [W], [__init__] on a
    non-empty file stores the whole windows of the decoded array, in order
    and each of [W] samples, drops the samples left over, and sets the
    cursor to 0; it does not set the attribute [segments]. *)
Theorem init_windows globals f (W : Z) :
  globals !! "SAMPLES_PER_WINDOW" = Some (VInt W) → 0 < W →
  st_size f ≠ 0 →
  ∃ self windows,
    __init__ globals f = Ok self
    ∧ self !! "samples" = Some (VArray2 windows)
    ∧ self !! "index" = Some (VInt 0)
    ∧ self !! "segments" = None
    ∧ len windows = len (decoded f) / W
    ∧ Forall (λ w, len w = W) windows
    ∧ concat windows
      = take (Z.to_nat (len (decoded f) / W * W)) (decoded f).
Proof.
  intros HW Hpos Hsz.
  set (k := len (decoded f) / W).
  assert (Hk : 0 ≤ k ∧ k * W ≤ len (decoded f)).
  { unfold k, len. split; [apply Z.div_pos; lia|].
    rewrite Z.mul_comm. apply Z.mul_div_le. lia. }
  assert (Hslice : getslice_to (decoded f) (k * W)
                   = take (Z.to_nat (k * W)) (decoded f)).
  { unfold getslice_to, slice_bound.
    destruct (Z.ltb_spec (k * W) 0); [lia|]. f_equal. lia. }
  exists (built f W), (split_rows (Z.to_nat k) (Z.to_nat W)
                         (getslice_to (decoded f) (k * W))).
  split; [by apply init_built|].
  split; [reflexivity|]. split; [reflexivity|]. split; [reflexivity|].
  split; [|split].
  - unfold len at 1. rewrite length_split_rows. lia.
  - eapply Forall_impl.
    + apply Forall_length_split_rows. rewrite Hslice, length_take.
      unfold len in Hk. nia.
    + intros w Hw. unfold len. simpl in Hw. lia.
  - rewrite concat_split_rows, Hslice, take_take. f_equal. nia.
Qed.

(** X16: with [SAMPLES_PER_WINDOW] bound to 0, [__init__] on a non-empty
    file raises [ZeroDivisionError]; bound to a negative integer, it raises
    the [ValueError] of [reshape]. *)
Theorem init_bad_window globals f (W : Z) :
  globals !! "SAMPLES_PER_WINDOW" = Some (VInt W) → W ≤ 0 →
  st_size f ≠ 0 →
  __init__ globals f
  = Raise (if W =? 0 then ZeroDivisionError else ValueError).
Proof.
  intros HW Hneg Hsz. unfold __init__, load_audio_file, ValidateAudioFile.
  destruct (Z.eqb_spec (st_size f) 0) as [|_]; [done|]. simpl.
  unfold load_global. rewrite HW. simpl.
  destruct (Z.eqb_spec W 0) as [|HW0]; [reflexivity|]. simpl.
  assert (Hrows : len (decoded f) / W ≤ 0).
  { unfold len. Z.div_mod_to_equations. nia. }
  set (rows := len (decoded f) / W) in *.
  set (a := getslice_to _ _). clearbody a rows.
  destruct (Z.eqb_spec rows (-1)), (Z.eqb_spec W (-1)); simpl;
    try reflexivity.
  - destruct (Z.ltb_spec 0 W); [lia | reflexivity].
  - destruct (Z.ltb_spec 0 rows); [lia | reflexivity].
  - destruct (Z.leb_spec 0 W); [lia|].
    by rewrite andb_false_r.
Qed.

(** One call of [get] on an instance that has the three attributes and
    whose cursor is below the segment count. *)
Lemma get_advances self (i n : Z) (rows : list (list Q)) :
  self !! "index" = Some (VInt i) →
  self !! "segments" = Some (VInt n) →
  self !! "samples" = Some (VArray2 rows) →
  0 ≤ i < n → n ≤ len rows →
  get self = (Ok VNone, <["index" := VInt (i + 1)]> self).
Proof.
  intros Hi Hn Hs Hin Hrows. unfold get, get_body, getattr.
  rewrite Hi, Hn, Hs. simpl.
  destruct (Z.leb_spec n i) as [|_]; [lia|]. simpl.
  destruct (Z.ltb_spec i 0) as [|_]; [lia|].
  destruct (Z.leb_spec 0 i) as [_|]; [|lia].
  destruct (Z.ltb_spec i (Z.of_nat (length rows))) as [_|];
    [|unfold len in Hrows; lia].
  simpl.
  destruct (lookup_lt_is_Some_2 rows (Z.to_nat i)) as [row ->];
    [unfold len in Hrows; lia|].
  reflexivity.
Qed.

Lemma gets_advance (m : nat) self (i n : Z) (rows : list (list Q)) :
  self !! "index" = Some (VInt i) →
  self !! "segments" = Some (VInt n) →
  self !! "samples" = Some (VArray2 rows) →
  0 ≤ i → i + Z.of_nat m ≤ n → n ≤ len rows →
  gets m self
  = (replicate m (Ok VNone), <["index" := VInt (i + Z.of_nat m)]> self).
Proof.
  revert self i. induction m as [|m IH]; intros self i Hi Hn Hs H0 Hm Hrows.
  - simpl. rewrite Z.add_0_r. by rewrite insert_id.
  - cbn [gets]. rewrite (get_advances self i n rows) by (done || lia).
    rewrite (IH _ (i + 1)); try done; try lia.
    + rewrite insert_insert_eq. simpl. do 3 f_equal. lia.
    + apply lookup_insert_eq.
    + by rewrite lookup_insert_ne.
    + by rewrite lookup_insert_ne.
Qed.

Lemma get_exhausted self (i n : Z) :
  self !! "index" = Some (VInt i) →
  self !! "segments" = Some (VInt n) →
  n ≤ i →
  get self = (Raise (Exception "Unexpected end of samples"), self).
Proof.
  intros Hi Hn Hle. unfold get, get_body, getattr. rewrite Hi, Hn. simpl.
  destruct (Z.leb_spec n i) as [_|]; [reflexivity | lia].
Qed.

Lemma gets_S (m : nat) self :
  gets (S m) self
  = let '(r, s1) := get self in
    let '(rs, s2) := gets m s1 in (r :: rs, s2).
Proof. reflexivity. Qed.

(** The last of [m + 1] calls. *)
Lemma gets_S_last (m : nat) self :
  gets (S m) self
  = let '(rs, s1) := gets m self in
    let '(r, s2) := get s1 in (rs ++ [r], s2).
Proof.
  revert self. induction m as [|m IH]; intros self.
  - simpl. by destruct (get self).
  - rewrite (gets_S (S m) self), (gets_S m self).
    destruct (get self) as [r s1]. rewrite IH.
    destruct (gets m s1) as [rs s2]. by destruct (get s2).
Qed.

(** X17: on an instance whose attribute [segments] holds the number [n] of
    its windows and whose cursor is 0, the first [n] calls of [get] succeed
    and move the cursor to [n], each returning [None] and not a window; the
    next call raises the exhaustion error. *)
Theorem gets_until_exhausted self (n : nat) (rows : list (list Q)) :
  self !! "index" = Some (VInt 0) →
  self !! "segments" = Some (VInt (Z.of_nat n)) →
  self !! "samples" = Some (VArray2 rows) →
  length rows = n →
  gets (S n) self
  = (replicate n (Ok VNone)
     ++ [Raise (Exception "Unexpected end of samples")],
     <["index" := VInt (Z.of_nat n)]> self).
Proof.
  intros Hi Hn Hs Hrows.
  rewrite gets_S_last.
  rewrite (gets_advance n self 0 (Z.of_nat n) rows)
    by (done || unfold len; lia).
  rewrite Z.add_0_l.
  rewrite (get_exhausted _ (Z.of_nat n) (Z.of_nat n));
    [reflexivity | apply lookup_insert_eq | by rewrite lookup_insert_ne | lia].
Qed.

(** X18: once the cursor has reached the count held by [segments], every
    call of [get] raises the exhaustion error and leaves the instance as it
    is. *)
Theorem gets_exhausted (m : nat) self (i n : Z) :
  self !! "index" = Some (VInt i) →
  self !! "segments" = Some (VInt n) →
  n ≤ i →
  gets m self
  = (replicate m (Raise (Exception "Unexpected end of samples")), self).
Proof.
  intros Hi Hn Hle. induction m as [|m IH]; [reflexivity|].
  cbn [gets]. rewrite (get_exhausted self i n Hi Hn Hle), IH. reflexivity.
Qed.

End VirtualMicrophoneReplay.

Lemma init_windows_witness :
  ∃ self windows,
    VirtualMicrophone.__init__
      (<["SAMPLES_PER_WINDOW" := VirtualMicrophone.VInt 2]>
         VirtualMicrophone.module_globals) five_samples = Ok self
    ∧ self !! "samples" = Some (VirtualMicrophone.VArray2 windows)
    ∧ self !! "index" = Some (VirtualMicrophone.VInt 0)
    ∧ self !! "segments" = None
    ∧ len windows = len (decoded five_samples) / 2
    ∧ Forall (λ w, len w = 2) windows
    ∧ concat windows
      = take (Z.to_nat (len (decoded five_samples) / 2 * 2))
          (decoded five_samples).
Proof.
  apply (init_windows _ five_samples 2); [reflexivity | lia | discriminate].
Defined.

Lemma init_bad_window_witness :
  VirtualMicrophone.__init__
    (<["SAMPLES_PER_WINDOW" := VirtualMicrophone.VInt (-2)]>
       VirtualMicrophone.module_globals) five_samples
  = Raise ValueError.
Proof.
  apply (init_bad_window _ five_samples (-2));
    [reflexivity | lia | discriminate].
Defined.

Lemma gets_until_exhausted_witness :
  let self := <["segments" := VirtualMicrophone.VInt 2]> (built five_samples 2) in
  VirtualMicrophone.gets 3 self
  = ([Ok VirtualMicrophone.VNone; Ok VirtualMicrophone.VNone;
      Raise (Exception "Unexpected end of samples")],
     <["index" := VirtualMicrophone.VInt 2]> self).
Proof.
  intros self.
  apply (gets_until_exhausted self 2 [[0; 1#2]; [-(1#2); 1]]%Q);
    reflexivity.
Defined.

Lemma gets_exhausted_witness :
  let self := <["segments" := VirtualMicrophone.VInt 0]> (built one_sample 2) in
  VirtualMicrophone.gets 2 self
  = (replicate 2 (Raise (Exception "Unexpected end of samples")), self).
Proof.
  intros self.
  apply (gets_exhausted 2 self 0 0); [reflexivity | reflexivity | lia].
Defined.

(** ** Paths, directories and the files of an export *)

Section Strings.

Lemma append_inj_r (s a b : string) : s +:+ a = s +:+ b → a = b.
Proof.
  induction s as [|c s IH]; simpl; [done|]. intros [= H]. by apply IH.
Qed.

Lemma length_append (a b : string) :
  String.length (a +:+ b) = (String.length a + String.length b)%nat.
Proof. induction a as [|c a IH]; simpl; [done|]. by rewrite IH. Qed.

Lemma substring_all (s : string) :
  String.substring 0 (String.length s) s = s.
Proof. induction s as [|c s IH]; simpl; [done|]. by rewrite IH. Qed.

Lemma substring_append_l (a b : string) :
  String.substring 0 (String.length a) (a +:+ b) = a.
Proof.
  induction a as [|c a IH]; simpl; [by destruct b|]. by rewrite IH.
Qed.

Lemma substring_append_r (a b : string) :
  String.substring (String.length a) (String.length b) (a +:+ b) = b.
Proof.
  induction a as [|c a IH]; simpl; [apply substring_all | exact IH].
Qed.

Lemma rfind_dot_cons (c : ascii) (s : string) :
  Path.rfind_dot (String c s)
  = match Path.rfind_dot s with
    | Some i => Some (S i)
    | None => if Ascii.eqb c "." then Some 0%nat else None
    end.
Proof. reflexivity. Qed.

(** The last dot of a name that ends in a dot and an extension without
    dots. *)
Lemma rfind_dot_extension (stem ext : string) :
  Path.rfind_dot ext = None →
  Path.rfind_dot (stem +:+ "." +:+ ext) = Some (String.length stem).
Proof.
  intros Hext. induction stem as [|c stem IH].
  - change (Path.rfind_dot (String "." ext) = Some 0%nat).
    by rewrite rfind_dot_cons, Hext.
  - change (Path.rfind_dot (String c (stem +:+ "." +:+ ext))
            = Some (S (String.length stem))).
    by rewrite rfind_dot_cons, IH.
Qed.

End Strings.

Section ExportedFiles.
Implicit Types (fs : filesystem) (p q : list string) (audio : ndarray).

Lemma parent_snoc p (x : string) : Path.parent (p ++ [x]) = p.
Proof. apply removelast_last. Qed.

Lemma with_suffix_pair p :
  Path.name p ≠ "" →
  ∃ text_path audio_path,
    Path.with_suffix p ".txt" = Ok text_path
    ∧ Path.with_suffix p ".wav" = Ok audio_path
    ∧ Path.parent text_path = Path.parent p
    ∧ Path.parent audio_path = Path.parent p
    ∧ text_path ≠ audio_path.
Proof.
  intros Hn. unfold Path.with_suffix. cbv zeta.
  rewrite !decide_False by done.
  do 2 eexists. split; [reflexivity|]. split; [reflexivity|].
  rewrite !parent_snoc. split; [done|]. split; [done|].
  intros H%app_inv_head. injection H as H.
  apply append_inj_r in H. discriminate.
Qed.

(** X19: for a path with a name, the text file and the audio file of an
    export are two different files of the directory of [base_path]. *)
Theorem with_suffix_siblings p :
  Path.name p ≠ "" →
  ∃ text_path audio_path,
    Path.with_suffix p ".txt" = Ok text_path
    ∧ Path.with_suffix p ".wav" = Ok audio_path
    ∧ Path.parent text_path = Path.parent p
    ∧ Path.parent audio_path = Path.parent p
    ∧ text_path ≠ audio_path.
Proof. apply with_suffix_pair. Qed.

(** [with_suffix] replaces the extension of the name: of a name made of a
    stem, a dot and an extension without dots it keeps the stem; a name
    without a dot is kept whole. *)
Lemma with_suffix_replaces p (stem ext new_suffix : string) :
  stem ≠ "" → ext ≠ "" → Path.rfind_dot ext = None →
  Path.with_suffix (p ++ [stem +:+ "." +:+ ext]) new_suffix
  = Ok (p ++ [stem +:+ new_suffix])
  ∧ (Path.rfind_dot stem = None →
     Path.with_suffix (p ++ [stem]) new_suffix
     = Ok (p ++ [stem +:+ new_suffix])).
Proof.
  intros Hstem Hext Hdot. unfold Path.with_suffix, Path.name.
  rewrite !last_last, !parent_snoc. split.
  - rewrite decide_False by (by destruct stem).
    unfold Path.suffix. rewrite (rfind_dot_extension _ _ Hdot).
    rewrite !length_append. simpl.
    assert (0 < String.length stem)%nat by (destruct stem; [done|simpl; lia]).
    assert (0 < String.length ext)%nat by (destruct ext; [done|simpl; lia]).
    destruct (Nat.ltb_spec 0 (String.length stem)); [|lia].
    destruct (Nat.ltb_spec (String.length stem)
                (String.length stem + S (String.length ext) - 1)); [|lia].
    simpl.
    pose proof (substring_append_r stem ("." +:+ ext)
                : String.substring (String.length stem)
                    (S (String.length ext)) (stem +:+ "." +:+ ext)
                  = "." +:+ ext) as Esuf.
    pose proof (substring_append_l stem ("." +:+ ext)) as Estem.
    replace (String.length stem + S (String.length ext) - String.length stem)%nat
      with (S (String.length ext)) by lia.
    rewrite Esuf.
    change (String.length ("." +:+ ext)) with (S (String.length ext)).
    replace (String.length stem + S (String.length ext)
             - S (String.length ext))%nat
      with (String.length stem) by lia.
    by rewrite Estem.
  - intros Hnodot. rewrite decide_False by done.
    unfold Path.suffix. rewrite Hnodot. simpl.
    by rewrite Nat.sub_0_r, substring_all.
Qed.

Lemma find_is_file_None fs fs' (l : list (list string)) :
  (∀ q, q ∈ l → is_file fs' q = is_file fs q) →
  find (is_file fs) l = None → find (is_file fs') l = None.
Proof.
  induction l as [|q l IH]; intros Hagree; simpl; [done|].
  rewrite (Hagree q) by apply list_elem_of_here.
  destruct (is_file fs q); [discriminate|].
  apply IH. intros q' Hq'. apply Hagree. by apply list_elem_of_further.
Qed.

(** [mkdir] with [parents] and [exist_ok] changes no file, keeps the
    directories there are, makes the path and its ancestors directories,
    and can be repeated. *)
Lemma mkdir_again p fs fs1 :
  mkdir p fs = Ok fs1 →
  files fs1 = files fs
  ∧ dirs fs ⊆ dirs fs1
  ∧ (∀ q, q ∈ prefixes p → is_dir fs1 q = true)
  ∧ mkdir p fs1 = Ok fs1.
Proof.
  unfold mkdir. destruct (find (is_file fs) (prefixes p)) eqn:Hfind;
    [discriminate|].
  intros [= <-]. simpl. split; [done|]. split; [apply union_subseteq_l|].
  split.
  - intros q Hq. unfold is_dir. simpl.
    apply orb_true_iff. right.
    by apply bool_decide_eq_true_2, elem_of_union_r, elem_of_list_to_set.
  - rewrite (find_is_file_None fs
               {| dirs := dirs fs ∪ list_to_set (prefixes p);
                  files := files fs |} _ (λ _ _, eq_refl) Hfind).
    f_equal. f_equal. by rewrite <- (assoc_L (∪)), (idemp_L (∪)).
Qed.

Lemma write_file_frame p (c : content) fs fs' :
  write_file p c fs = Ok fs' →
  dirs fs' = dirs fs ∧ files fs' = <[p := c]> (files fs).
Proof.
  unfold write_file. destruct (is_dir fs p); [discriminate|].
  destruct (negb _); [discriminate|]. by intros [= <-].
Qed.

Lemma write_file_ok p (c : content) fs :
  is_dir fs p = false → is_dir fs (Path.parent p) = true →
  write_file p c fs = Ok {| dirs := dirs fs; files := <[p := c]> (files fs) |}.
Proof. intros Hp Hd. unfold write_file. by rewrite Hp, Hd. Qed.

Lemma save_audio_segment_exported audio (text : string) p fs fs1
    (text_path audio_path : list string) (frames : list Z) :
  float32_to_int16 audio = Ok frames →
  mkdir (Path.parent p) fs = Ok fs1 →
  Path.with_suffix p ".txt" = Ok text_path →
  Path.with_suffix p ".wav" = Ok audio_path →
  Path.parent text_path = Path.parent p →
  Path.parent audio_path = Path.parent p →
  is_dir fs1 text_path = false → is_dir fs1 audio_path = false →
  save_audio_segment audio text p fs
  = (Ok (), exported fs1 text_path audio_path text frames).
Proof.
  intros Hconv Hmk Ht Ha Hpt Hpa Hdt Hda. unfold save_audio_segment.
  rewrite Hmk, Ht, Ha, Hconv. simpl.
  pose proof (mkdir_is_dir _ _ _ Hmk) as Hparent.
  rewrite write_file_ok by (by rewrite ?Hpa).
  rewrite write_file_ok; [reflexivity | exact Hdt | by rewrite Hpt].
Qed.

(** X21: when the samples are valid, the directory can be created, the
    path has a name and no directory stands at the two output paths,
    [save_audio_segment] returns with the directory created, the audio
    file holding the converted samples as 16-bit mono frames at 16 kHz,
    the text file holding the text, and every other file as it was. *)
Theorem save_audio_segment_ok audio (text : string) p fs fs1
    (text_path audio_path : list string) (frames : list Z) :
  float32_to_int16 audio = Ok frames →
  mkdir (Path.parent p) fs = Ok fs1 →
  Path.with_suffix p ".txt" = Ok text_path →
  Path.with_suffix p ".wav" = Ok audio_path →
  is_dir fs1 text_path = false → is_dir fs1 audio_path = false →
  ∃ fs2,
    save_audio_segment audio text p fs = (Ok (), fs2)
    ∧ dirs fs2 = dirs fs1
    ∧ files fs2 !! audio_path = Some (Wav 16000 2 1 frames)
    ∧ files fs2 !! text_path = Some (Text text)
    ∧ ∀ q, q ≠ text_path → q ≠ audio_path →
           files fs2 !! q = files fs !! q.
Proof.
  intros Hconv Hmk Ht Ha Hdt Hda.
  assert (Hn : Path.name p ≠ "").
  { intros Hn. unfold Path.with_suffix in Ht. by rewrite decide_True in Ht. }
  destruct (with_suffix_pair p Hn) as (t & a & Ht' & Ha' & Hpt & Hpa & Hne).
  rewrite Ht in Ht'. rewrite Ha in Ha'.
  injection Ht' as <-. injection Ha' as <-.
  exists (exported fs1 text_path audio_path text frames).
  split; [by apply save_audio_segment_exported|].
  unfold exported. simpl. split; [done|]. split; [|split].
  - rewrite lookup_insert_ne by done. apply lookup_insert_eq.
  - apply lookup_insert_eq.
  - intros q Hqt Hqa. rewrite !lookup_insert_ne by done.
    by rewrite (mkdir_files _ _ _ Hmk).
Qed.

(** X22: the export is not atomic: when a directory stands at the path of
    the text file, the audio file is written all the same before the call
    raises [IsADirectoryError]. *)
Theorem save_audio_segment_partial audio (text : string) p fs fs1
    (text_path audio_path : list string) (frames : list Z) :
  float32_to_int16 audio = Ok frames →
  mkdir (Path.parent p) fs = Ok fs1 →
  Path.with_suffix p ".txt" = Ok text_path →
  Path.with_suffix p ".wav" = Ok audio_path →
  is_dir fs1 text_path = true → is_dir fs1 audio_path = false →
  save_audio_segment audio text p fs
  = (Raise IsADirectoryError,
     {| dirs := dirs fs1;
        files := <[audio_path := Wav 16000 2 1 frames]> (files fs1) |}).
Proof.
  intros Hconv Hmk Ht Ha Hdt Hda.
  assert (Hn : Path.name p ≠ "").
  { intros Hn. unfold Path.with_suffix in Ht. by rewrite decide_True in Ht. }
  destruct (with_suffix_pair p Hn) as (t & a & Ht' & Ha' & Hpt & Hpa & Hne).
  rewrite Ht in Ht'. rewrite Ha in Ha'.
  injection Ht' as <-. injection Ha' as <-.
  unfold save_audio_segment. rewrite Hmk, Ht, Ha, Hconv. simpl.
  pose proof (mkdir_is_dir _ _ _ Hmk) as Hparent.
  rewrite write_file_ok by (by rewrite ?Hpa).
  unfold write_file, is_dir. simpl. unfold is_dir in Hdt. by rewrite Hdt.
Qed.

(** X23: an export can be repeated: after a complete export, the same call
    succeeds again and leaves the file system as the first call left it. *)
Theorem save_audio_segment_twice audio (text : string) p fs fs1
    (text_path audio_path : list string) (frames : list Z) fs2 :
  float32_to_int16 audio = Ok frames →
  mkdir (Path.parent p) fs = Ok fs1 →
  Path.with_suffix p ".txt" = Ok text_path →
  Path.with_suffix p ".wav" = Ok audio_path →
  is_dir fs1 text_path = false → is_dir fs1 audio_path = false →
  save_audio_segment audio text p fs = (Ok (), fs2) →
  save_audio_segment audio text p fs2 = (Ok (), fs2).
Proof.
  intros Hconv Hmk Ht Ha Hdt Hda Hsave.
  assert (Hn : Path.name p ≠ "").
  { intros Hn. unfold Path.with_suffix in Ht. by rewrite decide_True in Ht. }
  destruct (with_suffix_pair p Hn) as (t & a & Ht' & Ha' & Hpt & Hpa & Hne).
  rewrite Ht in Ht'. rewrite Ha in Ha'.
  injection Ht' as <-. injection Ha' as <-.
  rewrite (save_audio_segment_exported _ _ _ _ _ _ _ _
             Hconv Hmk Ht Ha Hpt Hpa Hdt Hda) in Hsave.
  injection Hsave as <-.
  set (fs2 := exported fs1 text_path audio_path text frames).
  assert (Hmk2 : mkdir (Path.parent p) fs2 = Ok fs2).
  { destruct (mkdir_again _ _ _ Hmk) as (_ & _ & _ & Hmk1).
    unfold mkdir in Hmk1 |- *.
    destruct (find (is_file fs1) (prefixes (Path.parent p))) eqn:Hfind;
      [discriminate|].
    rewrite (find_is_file_None fs1 fs2 _) ; [| |exact Hfind].
    - injection Hmk1 as Hmk1. unfold fs2, exported. simpl.
      f_equal. f_equal. by rewrite <- Hmk1 at 2.
    - intros q Hq. unfold is_file, fs2, exported. simpl.
      assert (Hlen : (length q ≤ length (Path.parent p))%nat).
      { unfold prefixes in Hq. apply list_elem_of_fmap in Hq as (n & -> & Hn').
        apply elem_of_seq in Hn'. rewrite length_take. lia. }
      assert (Hlt : ∀ x, Path.parent x = Path.parent p → x ≠ [] → q ≠ x).
      { intros x Hx Hx0 ->. rewrite <- Hx in Hlen.
        rewrite (app_removelast_last "" Hx0) in Hlen at 1.
        unfold Path.parent in Hlen. rewrite length_app in Hlen. simpl in Hlen.
        lia. }
      assert (text_path ≠ [] ∧ audio_path ≠ []) as [Ht0 Ha0].
      { unfold Path.with_suffix in Ht, Ha.
        rewrite decide_False in Ht, Ha by done.
        injection Ht as <-. injection Ha as <-.
        split; intros [_ ?]%app_eq_nil; discriminate. }
      rewrite !lookup_insert_ne by (apply not_eq_sym; by apply Hlt).
      reflexivity. }
  rewrite (save_audio_segment_exported audio text p fs2 fs2 text_path
             audio_path frames Hconv Hmk2 Ht Ha Hpt Hpa Hdt Hda).
  f_equal. unfold exported, fs2, exported. simpl. f_equal.
  apply map_eq. intros q.
  destruct (decide (text_path = q)) as [->|Hqt];
    [by rewrite !lookup_insert_eq|].
  destruct (decide (audio_path = q)) as [->|Hqa].
  - rewrite !(lookup_insert_ne _ text_path) by done.
    by rewrite !lookup_insert_eq.
  - by rewrite !lookup_insert_ne by done.
Qed.

(** X24: whatever the outcome, [save_audio_segment] leaves every file
    other than its two output files as it was, and removes no directory. *)
Theorem save_audio_segment_frame audio (text : string) p fs q :
  Path.with_suffix p ".txt" ≠ Ok q →
  Path.with_suffix p ".wav" ≠ Ok q →
  files (save_audio_segment audio text p fs).2 !! q = files fs !! q
  ∧ dirs fs ⊆ dirs (save_audio_segment audio text p fs).2.
Proof.
  intros Hqt Hqa.
  destruct (save_audio_segment audio text p fs) as [r fs'] eqn:E. simpl.
  unfold save_audio_segment in E.
  destruct (mkdir (Path.parent p) fs) as [fs1|e] eqn:Hmk;
    [|by injection E as <- <-].
  destruct (mkdir_again _ _ _ Hmk) as (Hfiles & Hdirs & _ & _).
  destruct (Path.with_suffix p ".txt") as [t|] eqn:Ht;
    [|injection E as <- <-; by rewrite Hfiles].
  destruct (Path.with_suffix p ".wav") as [a|] eqn:Ha;
    [|injection E as <- <-; by rewrite Hfiles].
  destruct (float32_to_int16 audio) as [frames|]; simpl in E;
    [|injection E as <- <-; by rewrite Hfiles].
  assert (t ≠ q) by congruence. assert (a ≠ q) by congruence.
  destruct (write_file a _ fs1) as [fs2|] eqn:Hw1;
    [|injection E as <- <-; by rewrite Hfiles].
  apply write_file_frame in Hw1 as [Hd2 Hf2].
  destruct (write_file t _ fs2) as [fs3|] eqn:Hw2; injection E as <- <-.
  - apply write_file_frame in Hw2 as [Hd3 Hf3].
    rewrite Hf3, Hf2, Hd3, Hd2, !lookup_insert_ne, Hfiles by done. done.
  - rewrite Hf2, Hd2, lookup_insert_ne, Hfiles by done. done.
Qed.

(** X20: the extension of [base_path] does not count: base paths that
    differ only in the extension of their name, or of which one has no
    extension, are exported to the same two files, with the same outcome. *)
Theorem save_audio_segment_extension audio (text : string) p fs
    (stem ext1 ext2 : string) :
  stem ≠ "" →
  ext1 ≠ "" → Path.rfind_dot ext1 = None →
  ext2 ≠ "" → Path.rfind_dot ext2 = None →
  save_audio_segment audio text (p ++ [stem +:+ "." +:+ ext1]) fs
  = save_audio_segment audio text (p ++ [stem +:+ "." +:+ ext2]) fs
  ∧ (Path.rfind_dot stem = None →
     save_audio_segment audio text (p ++ [stem +:+ "." +:+ ext1]) fs
     = save_audio_segment audio text (p ++ [stem]) fs).
Proof.
  intros Hstem He1 Hd1 He2 Hd2. unfold save_audio_segment.
  rewrite !parent_snoc.
  rewrite !(proj1 (with_suffix_replaces p stem ext1 _ Hstem He1 Hd1)).
  rewrite !(proj1 (with_suffix_replaces p stem ext2 _ Hstem He2 Hd2)).
  split; [reflexivity|]. intros Hs.
  by rewrite !(proj2 (with_suffix_replaces p stem ext1 _ Hstem He1 Hd1) Hs).
Qed.

End ExportedFiles.

Lemma with_suffix_siblings_witness :
  ∃ text_path audio_path,
    Path.with_suffix ["out"; "clip"] ".txt" = Ok text_path
    ∧ Path.with_suffix ["out"; "clip"] ".wav" = Ok audio_path
    ∧ Path.parent text_path = Path.parent ["out"; "clip"]
    ∧ Path.parent audio_path = Path.parent ["out"; "clip"]
    ∧ text_path ≠ audio_path.
Proof. apply (with_suffix_siblings ["out"; "clip"]). discriminate. Defined.

Lemma save_audio_segment_extension_witness :
  let fs := {| dirs := ∅; files := ∅ |} in
  save_audio_segment (NdArray float32 [1#2]%Q) "hello" ["out"; "clip.mp3"] fs
  = save_audio_segment (NdArray float32 [1#2]%Q) "hello" ["out"; "clip.ogg"] fs.
Proof.
  intros fs.
  apply (proj1 (save_audio_segment_extension (NdArray float32 [1#2]%Q)
                  "hello" ["out"] fs "clip" "mp3" "ogg"
                  ltac:(discriminate) ltac:(discriminate) eq_refl
                  ltac:(discriminate) eq_refl)).
Defined.

Lemma save_audio_segment_ok_witness :
  let fs := {| dirs := ∅; files := ∅ |} in
  let fs1 := {| dirs := ∅ ∪ list_to_set (prefixes ["out"]); files := ∅ |} in
  ∃ fs2,
    save_audio_segment (NdArray float32 [1#2; -(1#4)]%Q) "hello"
      ["out"; "clip"] fs = (Ok (), fs2)
    ∧ dirs fs2 = dirs fs1
    ∧ files fs2 !! ["out"; "clip.wav"] = Some (Wav 16000 2 1 [16384; -8192])
    ∧ files fs2 !! ["out"; "clip.txt"] = Some (Text "hello")
    ∧ ∀ q, q ≠ ["out"; "clip.txt"] → q ≠ ["out"; "clip.wav"] →
           files fs2 !! q = files fs !! q.
Proof.
  intros fs fs1.
  apply (save_audio_segment_ok (NdArray float32 [1#2; -(1#4)]%Q) "hello"
           ["out"; "clip"] fs fs1); vm_compute; reflexivity.
Defined.

Lemma save_audio_segment_partial_witness :
  let fs := {| dirs := {[ ["out"]; ["out"; "clip.txt"] ]}; files := ∅ |} in
  let fs1 := {| dirs := dirs fs ∪ list_to_set (prefixes ["out"]);
                files := ∅ |} in
  save_audio_segment (NdArray float32 [1#2]%Q) "hello" ["out"; "clip"] fs
  = (Raise IsADirectoryError,
     {| dirs := dirs fs1;
        files := <[ ["out"; "clip.wav"] := Wav 16000 2 1 [16384] ]> ∅ |}).
Proof.
  intros fs fs1.
  apply (save_audio_segment_partial (NdArray float32 [1#2]%Q) "hello"
           ["out"; "clip"] fs fs1 ["out"; "clip.txt"]);
    vm_compute; reflexivity.
Defined.

Lemma save_audio_segment_twice_witness :
  let fs := {| dirs := ∅; files := ∅ |} in
  let fs2 := (save_audio_segment (NdArray float32 [1#2]%Q) "hello"
                ["out"; "clip"] fs).2 in
  save_audio_segment (NdArray float32 [1#2]%Q) "hello" ["out"; "clip"] fs2
  = (Ok (), fs2).
Proof.
  intros fs fs2.
  apply (save_audio_segment_twice (NdArray float32 [1#2]%Q) "hello"
           ["out"; "clip"] fs
           {| dirs := ∅ ∪ list_to_set (prefixes ["out"]); files := ∅ |}
           ["out"; "clip.txt"] ["out"; "clip.wav"] [16384]);
    vm_compute; reflexivity.
Defined.

Lemma save_audio_segment_frame_witness :
  let fs := {| dirs := ∅; files := {[ ["notes.txt"] := Text "kept" ]} |} in
  files (save_audio_segment (NdArray float32 [1#2]%Q) "hello"
           ["out"; "clip"] fs).2 !! ["notes.txt"]
  = files fs !! ["notes.txt"]
  ∧ dirs fs ⊆ dirs (save_audio_segment (NdArray float32 [1#2]%Q) "hello"
                      ["out"; "clip"] fs).2.
Proof.
  intros fs.
  apply (save_audio_segment_frame (NdArray float32 [1#2]%Q) "hello"
           ["out"; "clip"] fs ["notes.txt"]); discriminate.
Defined.
